(** * Employee performance dashboard: ranking, week utilities, list state

    A shallow embedding of the client-side logic of the three screens
    (performance summary, login credentials, dynamic report) and the
    properties proved about it.

    Conventions of the embedding:
    - a JavaScript string is a [string] (a sequence of code units);
    - a JavaScript number that the program only ever uses as an integer
      (year, week, page, rank) is a [Z]; [jsnum] adds [NaN]; a score is
      only subtracted from another score and tested for equality, and is
      a [Z] as well, the order of the integers standing for that of the
      finite numbers;
    - a property that a record may lack is an [option], [None] standing
      for the missing property, which reads as [undefined]; [??], [?.],
      [||] and the truth tests treat a [null] in the same way; the count
      of a summary, which the program divides, has a type that tells the
      two apart, and the column sort is stated for columns in which no
      value is missing;
    - React state is a record, one field per [useState] hook; an event
      handler or an effect is a function from state to state. *)

From Stdlib Require Import ZArith List String Ascii Bool Lia.
From Stdlib Require Import Permutation Sorted DecimalString DecimalPos.
Import ListNotations.

#[local] Open Scope string_scope.
#[local] Open Scope Z_scope.

(** ** JavaScript primitives used by the screens *)

Module Js.

(** Numbers: an integer or [NaN]. *)
Inductive jsnum : Type :=
| NaN
| Num (z : Z).

Definition isNaN (n : jsnum) : bool :=
  match n with NaN => true | Num _ => false end.

(** [n - k] for a literal [k]. *)
Definition sub (n : jsnum) (k : Z) : jsnum :=
  match n with NaN => NaN | Num z => Num (z - k) end.

(** [n === k] for a literal [k]: [NaN] is equal to nothing. *)
Definition strict_eq_lit (n : jsnum) (k : Z) : bool :=
  match n with NaN => false | Num z => z =? k end.

(** [Number.MAX_SAFE_INTEGER]: up to it every integer is a number of its
    own, printed in full and read back exactly. *)
Definition MAX_SAFE_INTEGER : Z := 2 ^ 53 - 1.

(** [String(n)] and template interpolation of an integer: its decimal
    text, the text the source prints for every integer number below
    [10^21] in magnitude. *)
Definition string_of_Z (z : Z) : string :=
  NilZero.string_of_int (Z.to_int z).

Definition toString (n : jsnum) : string :=
  match n with NaN => "NaN" | Num z => string_of_Z z end.

(** [hay.includes(needle)]. *)
Fixpoint includes (needle hay : string) : bool :=
  String.prefix needle hay ||
  match hay with
  | EmptyString => false
  | String _ hay' => includes needle hay'
  end.

(** [s.split("-W")]: the segments between the occurrences of the
    separator, scanned from the left. *)
Fixpoint split_dashW (s : string) : list string :=
  match s with
  | EmptyString => [EmptyString]
  | String c s' =>
      let keep :=
        match split_dashW s' with
        | seg :: segs => String c seg :: segs
        | [] => [String c EmptyString]
        end in
      if Ascii.eqb c "-" then
        match s' with
        | String d rest => if Ascii.eqb d "W" then EmptyString :: split_dashW rest else keep
        | EmptyString => keep
        end
      else keep
  end.

(** [s.padStart(n, "0")]. *)
Definition padStart0 (n : nat) (s : string) : string :=
  String.concat "" (repeat "0" (n - String.length s)) ++ s.

(** White space skipped by [parseInt] and [Number], within the first 256
    code units. *)
Definition is_white_space (c : ascii) : bool :=
  let n := nat_of_ascii c in
  ((9 <=? n) && (n <=? 13) || (n =? 32) || (n =? 160))%nat.

Fixpoint trimStart (s : string) : string :=
  match s with
  | EmptyString => EmptyString
  | String c s' => if is_white_space c then trimStart s' else s
  end.

(** Value of a digit of a radix up to 36. *)
Definition digit_value (c : ascii) : option Z :=
  let n := Z.of_nat (nat_of_ascii c) in
  if (48 <=? n) && (n <=? 57) then Some (n - 48)
  else if (97 <=? n) && (n <=? 122) then Some (n - 87)
  else if (65 <=? n) && (n <=? 90) then Some (n - 55)
  else None.

(** The longest prefix of radix-[r] digits, read as a number; [None] when
    that prefix is empty and nothing was read before. *)
Fixpoint parse_digits (r : Z) (s : string) (acc : option Z) : option Z :=
  match s with
  | EmptyString => acc
  | String c s' =>
      match digit_value c with
      | Some d =>
          if d <? r
          then parse_digits r s' (Some (match acc with Some a => a * r + d | None => d end))
          else acc
      | None => acc
      end
  end.

Definition strip_sign (s : string) : Z * string :=
  match s with
  | String c s' =>
      if Ascii.eqb c "-" then (-1, s')
      else if Ascii.eqb c "+" then (1, s')
      else (1, s)
  | EmptyString => (1, s)
  end.

Definition strip_hex (s : string) : Z * string :=
  match s with
  | String c (String x s') =>
      if Ascii.eqb c "0" && (Ascii.eqb x "x" || Ascii.eqb x "X") then (16, s') else (10, s)
  | _ => (10, s)
  end.

(** [parseInt(s)] with no radix argument: the integer the digits denote;
    the source rounds it to the nearest number when it is above [2^53]. *)
Definition parseInt (s : string) : jsnum :=
  let (sign, s1) := strip_sign (trimStart s) in
  let (r, s2) := strip_hex s1 in
  match parse_digits r s2 None with
  | None => NaN
  | Some m => Num (sign * m)
  end.

(** [parseInt(x)] where [x] comes out of an array destructuring and is
    [undefined] when the array is too short. *)
Definition parseInt_arg (x : option string) : jsnum :=
  match x with
  | Some s => parseInt s
  | None => NaN
  end.

(** Whether the code unit [c] occurs in [s]. *)
Fixpoint occurs (c : ascii) (s : string) : bool :=
  match s with
  | EmptyString => false
  | String d s' => Ascii.eqb c d || occurs c s'
  end.

Definition is_digit (c : ascii) : bool :=
  let n := nat_of_ascii c in ((48 <=? n) && (n <=? 57))%nat.

(** The code units of the decimal text of an integer. *)
Definition numeric_char (c : ascii) : bool := is_digit c || Ascii.eqb c "-".

Fixpoint all_chars (p : ascii -> bool) (s : string) : bool :=
  match s with
  | EmptyString => true
  | String c s' => p c && all_chars p s'
  end.

(** [s.toLowerCase()], within the first 256 code units. *)
Definition lower_char (c : ascii) : ascii :=
  let n := nat_of_ascii c in
  if ((65 <=? n) && (n <=? 90) || (192 <=? n) && (n <=? 222) && negb (n =? 215))%nat
  then ascii_of_nat (n + 32)
  else c.

Fixpoint toLowerCase (s : string) : string :=
  match s with
  | EmptyString => EmptyString
  | String c s' => String (lower_char c) (toLowerCase s')
  end.

(** What may follow the decimal text of a number for [parseInt] to read
    that number: nothing, or a code unit that is no digit and no [x]. *)
Definition number_end (rest : string) : bool :=
  match rest with
  | EmptyString => true
  | String c _ => negb (is_digit c) && negb (Ascii.eqb c "x") && negb (Ascii.eqb c "X")
  end.

(** A search field matches the query when it is present and holds the
    query, case aside; an absent field matches nothing. *)
Definition field_matches (q : string) (x : option string) : bool :=
  match x with
  | Some s => includes (toLowerCase q) (toLowerCase s)
  | None => false
  end.

End Js.

(** ** [Array.prototype.sort] with a comparator

    The sort is stable; with a consistent comparator every stable sort
    returns the same array, which insertion from the right computes.  The
    comparator's result is read by its sign only.  For a comparator that
    is not consistent the source's order is left to the engine: the model
    then gives one arrangement of the same elements, and nothing but that
    is proved of it. *)

Section JsSort.
Context {A : Type} (cmp : A -> A -> Z).

Fixpoint insert (x : A) (l : list A) : list A :=
  match l with
  | [] => [x]
  | y :: l' => if 0 <? cmp x y then y :: insert x l' else x :: l
  end.

Definition js_sort (l : list A) : list A := fold_right insert [] l.

(** [x] is placed after [y]; [x] may stay before [y]; [k] and [x] are of
    one class, neither placed after the other. *)
Definition after (x y : A) : bool := 0 <? cmp x y.
Definition before_eq (x y : A) : Prop := after x y = false.
Definition same_class (k x : A) : bool := negb (after k x) && negb (after x k).
End JsSort.

(** [arr.forEach((x, index) => ...)] threading the variables the callback
    assigns. *)
Fixpoint forEach_from {A S : Type} (f : S -> A -> Z -> S) (l : list A) (index : Z) (st : S) : S :=
  match l with
  | [] => st
  | x :: l' => forEach_from f l' (index + 1) (f st x index)
  end.

(** A computation that may throw a [TypeError]. *)
Inductive result (A : Type) : Type :=
| Ok (a : A)
| Throw.
Arguments Ok {A} a.
Arguments Throw {A}.

Definition bind {A B : Type} (m : result A) (k : A -> result B) : result B :=
  match m with Ok a => k a | Throw => Throw end.

(** [a || b] on truth values, [b] evaluated only when [a] is falsy. *)
Definition or_else (a : result bool) (b : result bool) : result bool :=
  bind a (fun x => if x then Ok true else b).

(** [arr.filter(p)] where [p] may throw. *)
Fixpoint filter_r {A : Type} (p : A -> result bool) (l : list A) : result (list A) :=
  match l with
  | [] => Ok []
  | x :: l' =>
      bind (p x) (fun keep =>
      bind (filter_r p l') (fun rest =>
      Ok (if keep then x :: rest else rest)))
  end.

(** ** Dynamic report screen (Buttons.js) *)

Module Report.
Import Js.

(** The result of [parseWeek]; [None] is [null]. *)
Record WeekParts : Type := mkWeekParts {
  year : option jsnum;
  week : option jsnum
}.

(** [weekValue] is the week input's value; [None] stands for a nullish
    argument. *)
Definition parseWeek (weekValue : option string) : WeekParts :=
  match weekValue with
  | None => mkWeekParts None None
  | Some s =>
      if (s =? "")%string || negb (includes "-W" s) then mkWeekParts None None
      else
        let parts := split_dashW s in
        mkWeekParts (Some (parseInt_arg (nth_error parts 0)))
                    (Some (parseInt_arg (nth_error parts 1)))
  end.

Definition nulls : WeekParts := mkWeekParts None None.

(** The shape [YYYY-Www] of a week input's value: four digits, the marker,
    two digits. *)
Definition well_formed_week (s : string) : bool :=
  match s with
  | String y1 (String y2 (String y3 (String y4 (String d (String w (String w1 (String w2 EmptyString))))))) =>
      is_digit y1 && is_digit y2 && is_digit y3 && is_digit y4
      && Ascii.eqb d "-" && Ascii.eqb w "W" && is_digit w1 && is_digit w2
  | _ => false
  end.

(** A record of a report response, with the fields the screen reads. *)
Record RawRecord : Type := mkRawRecord {
  id : option string;
  emp_id : option string;
  name : option string;
  full_name : option string;
  department : option string;
  department_name : option string;
  manager : option string;
  manager_name : option string;
  total_score : option Z;
  avg_score : option Z;
  rank : option Z
}.

(** [{ ...emp, score, rank }]: the record's own fields, under the two
    properties the spread is followed by. *)
Record RankedRecord : Type := mkRanked {
  ranked_emp : RawRecord;
  ranked_score : Z;
  ranked_rank : Z
}.

(** [emp.total_score ?? emp.avg_score ?? 0]. *)
Definition resolved_score (emp : RawRecord) : Z :=
  match total_score emp with
  | Some s => s
  | None => match avg_score emp with Some s => s | None => 0 end
  end.

(** The variables of the ranking loop. *)
Record RankLoop : Type := mkRankLoop {
  ranked : list RankedRecord;
  lastScore : option Z;
  lastRank : Z
}.

Definition rank_step (st : RankLoop) (emp : RawRecord) (index : Z) : RankLoop :=
  let currentScore := resolved_score emp in
  if match lastScore st with Some l => currentScore =? l | None => false end
  then mkRankLoop (ranked st ++ [mkRanked emp currentScore (lastRank st)])
                  (lastScore st) (lastRank st)
  else
    let newRank := match rank emp with Some r => r | None => index + 1 end in
    mkRankLoop (ranked st ++ [mkRanked emp currentScore newRank])
               (Some currentScore) newRank.

(** The ranked records the loop pushes over [l], started at [index] with
    the given [lastScore] and [lastRank]. *)
Fixpoint rank_walk (l : list RawRecord) (index : Z) (ls : option Z) (lr : Z) : list RankedRecord :=
  match l with
  | [] => []
  | emp :: l' =>
      let st := rank_step (mkRankLoop [] ls lr) emp index in
      ranked st ++ rank_walk l' (index + 1) (lastScore st) (lastRank st)
  end.

(** The rank a record gets when its score is a new one. *)
Definition fresh_rank (emp : RawRecord) (index : Z) : Z :=
  match rank emp with Some r => r | None => index + 1 end.

(** The score and the rank the walk compares the record at position [j]
    with: those it was started with, or those of the record before. *)
Definition score_before (out : list RankedRecord) (ls : option Z) (j : nat) : option Z :=
  match j with
  | O => ls
  | S j' => option_map ranked_score (nth_error out j')
  end.

Definition rank_before (out : list RankedRecord) (lr : Z) (j : nat) : Z :=
  match j with
  | O => lr
  | S j' => match nth_error out j' with Some p => ranked_rank p | None => 0 end
  end.

Definition tied_with (prev : option Z) (s : Z) : bool :=
  match prev with Some p => s =? p | None => false end.

(** A record with a score and nothing else, and one with a rank as well. *)
Definition scored (s : Z) : RawRecord :=
  mkRawRecord None None None None None None None None (Some s) None None.

Definition averaged (s : Z) : RawRecord :=
  mkRawRecord None None None None None None None None None (Some s) None.

Definition scored_ranked (s r : Z) : RawRecord :=
  mkRawRecord None None None None None None None None (Some s) None (Some r).

Definition by_score_desc (a b : RawRecord) : Z :=
  resolved_score b - resolved_score a.

Definition generateRankedData (data : list RawRecord) : list RankedRecord :=
  let sorted := js_sort by_score_desc data in
  ranked (forEach_from rank_step sorted 0 (mkRankLoop [] None 0)).

(** The number of records of [l] with a score above [s]. *)
Definition count_above (s : Z) (l : list RawRecord) : Z :=
  Z.of_nat (List.length (filter (fun e => s <? resolved_score e) l)).

(** *** Fetching and submitting a report *)

Inductive ReportType : Type := weekly | by_manager | by_department.

Definition API_BASE (t : ReportType) : string :=
  match t with
  | weekly => "reports/weekly/"
  | by_manager => "reports/manager/"
  | by_department => "reports/department/"
  end.

(** The query parameters of a report request; [None] is a property that
    was not set. *)
Record Params : Type := mkParams {
  p_manager : option string;
  p_department : option string;
  p_week : option Z;
  p_year : option Z
}.

Record Request : Type := mkRequest {
  endpoint : string;
  params : Params
}.

(** [if (s) params.x = s] for a string: the empty string is falsy. *)
Definition set_if_string (s : string) : option string :=
  if (s =? "")%string then None else Some s.

(** [if (n) params.x = n] for a result of [parseWeek]: [null], [NaN] and
    [0] are falsy. *)
Definition set_if_number (n : option jsnum) : option Z :=
  match n with
  | Some (Num z) => if z =? 0 then None else Some z
  | _ => None
  end.

(** The request [fetchReport] sends. *)
Definition fetchReport_request (t : ReportType) (mgr dept : string)
    (wk yr : option jsnum) : Request :=
  mkRequest (API_BASE t)
    (mkParams (set_if_string mgr) (set_if_string dept)
              (set_if_number wk) (set_if_number yr)).

(** A row of the report table. *)
Record ReportRow : Type := mkRow {
  row_id : string;
  row_name : string;
  row_department : string;
  row_manager : string;
  row_score : Z;
  row_rank : Z
}.

(** [a || b || "-"] on two optional strings. *)
Definition first_of (a b : option string) : string :=
  match a with
  | Some s => if (s =? "")%string
              then match b with Some t => if (t =? "")%string then "-" else t | None => "-" end
              else s
  | None => match b with Some t => if (t =? "")%string then "-" else t | None => "-" end
  end.

(** The row of a ranked record; its [score] and [rank] are those the
    ranking has set, which are never nullish. *)
Definition normalize (item : RankedRecord) : ReportRow :=
  let emp := ranked_emp item in
  mkRow (first_of (id emp) (emp_id emp))
        (first_of (name emp) (full_name emp))
        (first_of (department emp) (department_name emp))
        (first_of (manager emp) (manager_name emp))
        (ranked_score item)
        (ranked_rank item).

Record State : Type := mkState {
  reportType : ReportType;
  selectedOption : string;
  selectedWeek2 : string;
  filteredData : list ReportRow;
  isPrinting : bool;
  loading : bool;
  error : string
}.

(** The outcome of the request: the promise rejects, or resolves with a
    body whose [records] is an array or is not. *)
Inductive AxiosResult : Type :=
| Rejected
| Resolved (records : option (list RawRecord)).

(** [fetchReport] once the request has settled. *)
Definition fetchReport (res : AxiosResult) (st : State) : State :=
  let rows :=
    match res with
    | Resolved (Some records) => map normalize (generateRankedData records)
    | Resolved None => []
    | Rejected => filteredData st
    end in
  let err :=
    match res with
    | Rejected => "Failed to load data from server"
    | Resolved _ => ""
    end in
  mkState (reportType st) (selectedOption st) (selectedWeek2 st) rows (isPrinting st) false err.

(** What a submit does: a blocking alert, or one request. *)
Inductive Submitted : Type :=
| Alerted (message : string)
| Requested (req : Request).

Definition handleSubmit (st : State) : Submitted :=
  if (selectedWeek2 st =? "")%string then Alerted "Please select week"
  else
    let parts := parseWeek (Some (selectedWeek2 st)) in
    match reportType st with
    | by_manager =>
        Requested (fetchReport_request by_manager (selectedOption st) "" (week parts) (year parts))
    | by_department =>
        Requested (fetchReport_request by_department "" (selectedOption st) (week parts) (year parts))
    | weekly =>
        Requested (fetchReport_request weekly "" "" (week parts) (year parts))
    end.

End Report.

(** ** Performance summary screen *)

Module Performance.
Import Js.

(** *** The selectable week range *)

(** [Number(s)] on a string: white space is trimmed at both ends, the
    empty string is [0], an optionally signed decimal integer or an
    unsigned hexadecimal integer is its value.  Literals with a fraction or
    an exponent denote no integer and are outside the model; they are
    answered [NaN]. *)
Fixpoint all_white (s : string) : bool :=
  match s with
  | EmptyString => true
  | String c s' => is_white_space c && all_white s'
  end.

Fixpoint parse_all (r : Z) (s : string) (acc : option Z) : option Z :=
  match s with
  | EmptyString => acc
  | String c s' =>
      match digit_value c with
      | Some d =>
          if d <? r
          then parse_all r s' (Some (match acc with Some a => a * r + d | None => d end))
          else None
      | None =>
          match acc with
          | Some _ => if all_white s then acc else None
          | None => None
          end
      end
  end.

Definition Number (s : string) : jsnum :=
  match trimStart s with
  | EmptyString => Num 0
  | t =>
      match strip_hex t with
      | (16, digits) =>
          match parse_all 16 digits None with Some m => Num m | None => NaN end
      | _ =>
          let (sign, digits) := strip_sign t in
          match parse_all 10 digits None with Some m => Num (sign * m) | None => NaN end
      end
  end.

(** What the function uses of a [Date] object. *)
Record DateObject : Type := mkDate {
  getFullYear : Z;
  toLocaleDateString : string -> list (string * string) -> string
}.

Record WeekRange : Type := mkWeekRange {
  min : string;
  max : string
}.

Definition week_string (y : Z) (w : jsnum) : string :=
  string_of_Z y ++ "-W" ++ padStart0 2 (toString w).

(** [today] is the value of [new Date()]. *)
Definition getAllowedWeeks (today : DateObject) : WeekRange :=
  let currentYear := getFullYear today in
  let currentWeek :=
    Number (toLocaleDateString today "en-GB" [("week", "numeric"); ("year", "numeric")]) in
  let prevWeek := sub currentWeek 1 in
  let prevYear := currentYear in
  let (prevWeek, prevYear) :=
    if strict_eq_lit prevWeek 0 then (Num 52, currentYear - 1) else (prevWeek, prevYear) in
  mkWeekRange (week_string prevYear prevWeek) (week_string currentYear currentWeek).

(** *** The platform's dates

    [Intl.DateTimeFormat] builds its pattern from the option properties
    listed in [date_component_keys] and reads no other property of the
    options object. *)
Definition date_component_keys : list string :=
  ["weekday"; "era"; "year"; "month"; "day"].

Definition requested (opts : list (string * string)) : list (string * string) :=
  filter (fun kv => existsb (String.eqb (fst kv)) date_component_keys) opts.

Definition two_digits (z : Z) : string := padStart0 2 (string_of_Z z).

(** The date object of the calendar day [y]-[m]-[d] under the [en-GB]
    locale.  A request for the numeric year alone is answered by the year;
    the program makes no other request, and the model answers any other
    one by the default numeric date. *)
Definition date_of (y m d : Z) : DateObject :=
  mkDate y (fun _ opts =>
    match requested opts with
    | [("year", "numeric")] => string_of_Z y
    | _ => two_digits d ++ "/" ++ two_digits m ++ "/" ++ string_of_Z y
    end).

(** Days since 1970-01-01 of a day of the proleptic Gregorian calendar. *)
Definition days_from_civil (y m d : Z) : Z :=
  let y' := if m <=? 2 then y - 1 else y in
  let era := y' / 400 in
  let yoe := y' - era * 400 in
  let mp := (m + 9) mod 12 in
  let doy := (153 * mp + 2) / 5 + d - 1 in
  let doe := yoe * 365 + yoe / 4 - yoe / 100 + doy in
  era * 146097 + doe - 719468.

(** ISO 8601 week of a day: the week, Monday to Sunday, belongs to the
    year of its Thursday; the result is (week-numbering year, week). *)
Definition iso_week (y m d : Z) : Z * Z :=
  let days := days_from_civil y m d in
  let thursday := days - (days + 3) mod 7 + 3 in
  let wy :=
    if thursday <? days_from_civil y 1 1 then y - 1
    else if days_from_civil (y + 1) 1 1 <=? thursday then y + 1
    else y in
  (wy, (thursday - days_from_civil wy 1 1) / 7 + 1).

(** *** Records and state *)

Record PerfRecord : Type := mkPerfRecord {
  emp_id : option string;
  full_name : option string;
  department_name : option string;
  total_score : option Z;
  evaluation_period : option string;
  rank : option Z;
  evaluation_id : option string
}.

(** The keys of the sortable column headers. *)
Inductive SortKey : Type := K_emp_id | K_full_name | K_total_score | K_rank.

Inductive Direction : Type := asc | desc.

Record SortConfig : Type := mkSortConfig {
  key : option SortKey;
  direction : Direction
}.

Definition pageSize : Z := 10.

Record State : Type := mkState {
  week : string;
  employees : list PerfRecord;
  sortConfig : SortConfig;
  searchQuery : string;
  loading : bool;
  page : Z;
  totalPages : jsnum
}.

Definition initial : State :=
  mkState "" [] (mkSortConfig None asc) "" true 1 (Num 1).

(** *** Fetching a page *)

Definition summary_url : string := "http://127.0.0.1:8000/api/performance/summary/".

(** The first part of [fetchPerformanceData]: the URL with the week filter. *)
Definition filtered_url (week : string) : string :=
  let url := summary_url in
  if negb (week =? "")%string && includes "-W" week then
    let parts := split_dashW week in
    let year := parseInt_arg (nth_error parts 0) in
    let weekNumber := parseInt_arg (nth_error parts 1) in
    if negb (isNaN year) && negb (isNaN weekNumber)
    then url ++ "?week=" ++ toString weekNumber ++ "&year=" ++ toString year
    else url
  else url.

(** The selected week carries a usable filter: it contains the marker, and
    the part before its first occurrence and the part after it are read as
    the integers [y] and [w] by [parseInt]. *)
Definition week_filter (week : string) (y w : Z) : Prop :=
  exists pre post,
    week = pre ++ "-W" ++ post /\ includes "-W" pre = false /\
    parseInt pre = Num y /\ parseInt post = Num w.

Definition paginatedUrl (week : string) (page : Z) : string :=
  let url := filtered_url week in
  url ++ (if includes "?" url then "&" else "?")
      ++ "page=" ++ string_of_Z page ++ "&page_size=" ++ string_of_Z pageSize.

(** The [count] of a body: missing, [null], or a number. *)
Inductive Count : Type :=
| NoCount
| NullCount
| CountOf (c : Z).

(** The body of a summary response. *)
Record Backend : Type := mkBackend {
  results_records : option (list PerfRecord);
  records : option (list PerfRecord);
  count : Count
}.

(** The outcome of [axiosInstance.get]: the promise rejects on a network
    error and on a non-success status, or resolves with the body. *)
Inductive AxiosResult : Type :=
| Rejected
| Resolved (backend : Backend).

(** [Math.ceil(count / pageSize)]: [undefined / 10] is [NaN] and
    [null / 10] is [0]. *)
Definition ceil_pages (count : Count) : jsnum :=
  match count with
  | CountOf c => Num (- ((- c) / pageSize))
  | NullCount => Num 0
  | NoCount => NaN
  end.

Definition setLoading (b : bool) (st : State) : State :=
  mkState (week st) (employees st) (sortConfig st) (searchQuery st) b (page st) (totalPages st).

Definition setEmployees (l : list PerfRecord) (st : State) : State :=
  mkState (week st) l (sortConfig st) (searchQuery st) (loading st) (page st) (totalPages st).

Definition setTotalPages (n : jsnum) (st : State) : State :=
  mkState (week st) (employees st) (sortConfig st) (searchQuery st) (loading st) (page st) n.

Definition setSortConfig (c : SortConfig) (st : State) : State :=
  mkState (week st) (employees st) c (searchQuery st) (loading st) (page st) (totalPages st).

(** [fetchPerformanceData] once the request has settled.  The [catch]
    block writes to the console and sets no state. *)
Definition fetchPerformanceData (res : AxiosResult) (st : State) : State :=
  let st := setLoading true st in
  let st :=
    match res with
    | Resolved backend =>
        let finalRecords :=
          match results_records backend with
          | Some l => l
          | None => match records backend with Some l => l | None => [] end
          end in
        setTotalPages (ceil_pages (count backend)) (setEmployees finalRecords st)
    | Rejected => st
    end in
  setLoading false st.

(** *** Sorting by a column *)

(** The value of [a[key]]; a missing property reads as [undefined]. *)
Inductive Val : Type :=
| VUndef
| VNum (z : Z)
| VStr (s : string).

Definition of_str (x : option string) : Val :=
  match x with Some s => VStr s | None => VUndef end.

Definition of_num (x : option Z) : Val :=
  match x with Some z => VNum z | None => VUndef end.

Definition field (k : SortKey) (e : PerfRecord) : Val :=
  match k with
  | K_emp_id => of_str (emp_id e)
  | K_full_name => of_str (full_name e)
  | K_total_score => of_num (total_score e)
  | K_rank => of_num (rank e)
  end.

Definition toNumber (v : Val) : jsnum :=
  match v with
  | VUndef => NaN
  | VNum z => Num z
  | VStr s => Number s
  end.

(** [a < b]: two strings are compared by code units, anything else as
    numbers, and a comparison with [NaN] is false. *)
Definition js_lt (a b : Val) : bool :=
  match a, b with
  | VStr x, VStr y => String.ltb x y
  | _, _ =>
      match toNumber a, toNumber b with
      | Num x, Num y => x <? y
      | _, _ => false
      end
  end.

Definition SortKey_eqb (a b : SortKey) : bool :=
  match a, b with
  | K_emp_id, K_emp_id | K_full_name, K_full_name
  | K_total_score, K_total_score | K_rank, K_rank => true
  | _, _ => false
  end.

Definition is_asc (d : Direction) : bool :=
  match d with asc => true | desc => false end.

(** The comparator handed to [sort]. *)
Definition compare_by (k : SortKey) (d : Direction) (a b : PerfRecord) : Z :=
  if js_lt (field k a) (field k b) then (if is_asc d then -1 else 1)
  else if js_lt (field k b) (field k a) then (if is_asc d then 1 else -1)
  else 0.

Definition next_direction (c : SortConfig) (k : SortKey) : Direction :=
  match key c with
  | Some k' => if SortKey_eqb k' k && is_asc (direction c) then desc else asc
  | None => asc
  end.

Definition handleSort (k : SortKey) (st : State) : State :=
  let direction := next_direction (sortConfig st) k in
  let sorted := js_sort (compare_by k direction) (employees st) in
  setSortConfig (mkSortConfig (Some k) direction) (setEmployees sorted st).

(** A column is comparable when every record has a value for it and the
    values are all strings or all numbers: [<] is then a consistent order
    on it.  With a missing value it is not: [undefined] is neither below
    nor above anything. *)
Definition is_str (v : Val) : bool :=
  match v with VStr _ => true | _ => false end.

Definition is_num (v : Val) : bool :=
  match v with VNum _ => true | _ => false end.

Definition comparable (k : SortKey) (l : list PerfRecord) : Prop :=
  Forall (fun e => is_str (field k e) = true) l \/
  Forall (fun e => is_num (field k e) = true) l.

Definition Val_eqb (a b : Val) : bool :=
  match a, b with
  | VUndef, VUndef => true
  | VNum x, VNum y => x =? y
  | VStr x, VStr y => (x =? y)%string
  | _, _ => false
  end.

(** The list is in ascending order of the column: no record has a value
    below that of a record before it. *)
Definition ascending (k : SortKey) (l : list PerfRecord) : Prop :=
  StronglySorted (fun a b => js_lt (field k b) (field k a) = false) l.

Definition descending (k : SortKey) (l : list PerfRecord) : Prop :=
  StronglySorted (fun a b => js_lt (field k a) (field k b) = false) l.

(** The order of [<] on comparable values, extended to all values:
    numbers by value, strings by code units, numbers before strings, a
    missing value with [0]. *)
Inductive NKey : Type :=
| NNum (z : Z)
| NStr (s : string).

Definition nkey (v : Val) : NKey :=
  match v with
  | VUndef => NNum 0
  | VNum z => NNum z
  | VStr s => NStr s
  end.

Definition nkey_lt (a b : NKey) : bool :=
  match a, b with
  | NNum x, NNum y => x <? y
  | NStr x, NStr y => String.ltb x y
  | NNum _, NStr _ => true
  | NStr _, NNum _ => false
  end.

Definition key_lt (k : SortKey) (a b : PerfRecord) : bool :=
  nkey_lt (nkey (field k a)) (nkey (field k b)).

Definition compare_keys (k : SortKey) (d : Direction) (a b : PerfRecord) : Z :=
  if key_lt k a b then (if is_asc d then -1 else 1)
  else if key_lt k b a then (if is_asc d then 1 else -1)
  else 0.

Definition flip (d : Direction) : Direction :=
  match d with asc => desc | desc => asc end.

(** *** Searching the loaded page *)

(** [x.toLowerCase().includes(q.toLowerCase())]: a [TypeError] when [x]
    is nullish. *)
Definition matches (q : string) (x : option string) : result bool :=
  match x with
  | Some s => Ok (includes (toLowerCase q) (toLowerCase s))
  | None => Throw
  end.

(** [x?.toLowerCase().includes(q.toLowerCase())]: [undefined], which is
    falsy, when [x] is nullish. *)
Definition matches_opt (q : string) (x : option string) : result bool :=
  match x with
  | Some s => Ok (includes (toLowerCase q) (toLowerCase s))
  | None => Ok false
  end.

Definition search_pred (q : string) (emp : PerfRecord) : result bool :=
  or_else (matches q (emp_id emp))
    (or_else (matches_opt q (full_name emp))
             (matches_opt q (department_name emp))).

Definition filteredEmployees (st : State) : result (list PerfRecord) :=
  filter_r (search_pred (searchQuery st)) (employees st).

(** *** The latest week and the page links *)






(** [[...Array(totalPages).keys()].map((num) => num + 1)]: [Array(n)]
    throws a [RangeError] unless [n] is an integer from [0] to [2^32 - 1]. *)
Definition page_numbers (st : State) : result (list Z) :=
  match totalPages st with
  | Num n =>
      if (0 <=? n) && (n <? 2 ^ 32)
      then Ok (map (fun num => Z.of_nat num + 1) (seq 0 (Z.to_nat n)))
      else Throw
  | NaN => Throw
  end.

(** The [disabled] class of the Prev and Next links. *)
Definition prev_disabled (st : State) : bool := page st =? 1.

Definition next_disabled (st : State) : bool :=
  match totalPages st with
  | Num n => page st =? n
  | NaN => false
  end.

End Performance.

(** ** Login credentials screen *)

Module Login.
Import Js.

Record LoginRecord : Type := mkLoginRecord {
  emp_id : option string;
  full_name : option string;
  username : option string;
  temp_password : option string;
  password : option string
}.

Record Alert : Type := mkAlert {
  show : bool;
  message : string;
  type : string
}.

Record Pagination : Type := mkPagination {
  next : option string;
  previous : option string;
  currentPage : Z;
  totalCount : option Z
}.

Inductive Direction : Type := asc | desc.

Record SortConfig : Type := mkSortConfig {
  key : option string;
  direction : Direction
}.

(** The component's state, and the [localStorage] entry it writes. *)
Record State : Type := mkState {
  employees : list LoginRecord;
  search : string;
  sortConfig : SortConfig;
  alert : Alert;
  loading : bool;
  regenLoading : option (option string);
  pagination : Pagination;
  loginDetailsPageUrl : option string
}.

Definition API_URL : string := "http://127.0.0.1:8000/api/users/login-details/".

Definition initial : State :=
  mkState [] "" (mkSortConfig None asc) (mkAlert false "" "") false None
          (mkPagination None None 1 (Some 0)) None.

(** The outcome of [fetch] followed by [res.json()]: [fetch] rejects, or
    answers with a status and a body, and [body] is [None] when the body
    is not JSON, in which case [res.json()] rejects. *)
Inductive FetchResult (D : Type) : Type :=
| NetworkError
| Response (ok : bool) (body : option D).
Arguments NetworkError {D}.
Arguments Response {D} ok body.

(** A request failed: no answer, a non-success status, or a body that is
    not JSON. *)
Definition fetch_failed {D : Type} (res : FetchResult D) : bool :=
  match res with
  | NetworkError => true
  | Response ok body => negb ok || match body with Some _ => false | None => true end
  end.

Record ListData : Type := mkListData {
  detail : option string;
  results : option (list LoginRecord);
  data_next : option string;
  data_previous : option string;
  count : option Z
}.

(** [a || b] on strings: the empty string is falsy. *)
Definition str_or (a : option string) (b : string) : string :=
  match a with
  | Some s => if (s =? "")%string then b else s
  | None => b
  end.

(** [url.match(/page=(\d+)/)] followed by [parseInt]: the digits after
    the leftmost [page=] that has a digit after it, [1] without a match. *)
Fixpoint getPageNumberFromUrl (url : string) : Z :=
  match url with
  | EmptyString => 1
  | String _ url' =>
      if String.prefix "page=" url then
        match parse_digits 10 (String.substring 5 (String.length url) url) None with
        | Some n => n
        | None => getPageNumberFromUrl url'
        end
      else getPageNumberFromUrl url'
  end.

Definition with_password (p : string) (emp : LoginRecord) : LoginRecord :=
  mkLoginRecord (emp_id emp) (full_name emp) (username emp) (temp_password emp) (Some p).

Definition setEmployees (l : list LoginRecord) (st : State) : State :=
  mkState l (search st) (sortConfig st) (alert st) (loading st) (regenLoading st)
          (pagination st) (loginDetailsPageUrl st).

Definition setAlert (a : Alert) (st : State) : State :=
  mkState (employees st) (search st) (sortConfig st) a (loading st) (regenLoading st)
          (pagination st) (loginDetailsPageUrl st).

Definition setLoading (b : bool) (st : State) : State :=
  mkState (employees st) (search st) (sortConfig st) (alert st) b (regenLoading st)
          (pagination st) (loginDetailsPageUrl st).

Definition setRegenLoading (r : option (option string)) (st : State) : State :=
  mkState (employees st) (search st) (sortConfig st) (alert st) (loading st) r
          (pagination st) (loginDetailsPageUrl st).

Definition setPagination (p : Pagination) (st : State) : State :=
  mkState (employees st) (search st) (sortConfig st) (alert st) (loading st) (regenLoading st)
          p (loginDetailsPageUrl st).

Definition storeUrl (url : string) (st : State) : State :=
  mkState (employees st) (search st) (sortConfig st) (alert st) (loading st) (regenLoading st)
          (pagination st) (Some url).

Definition fetch_error_alert : Alert :=
  mkAlert true "Error fetching employee data." "danger".

(** [fetchEmployees(url)] once the request has settled. *)
Definition fetchEmployees (url : string) (res : FetchResult ListData) (st : State) : State :=
  let st := setLoading true st in
  let st :=
    match res with
    | Response true (Some data) =>
        let employeesList :=
          map (fun emp => with_password (str_or (temp_password emp) "") emp)
              (match results data with Some l => l | None => [] end) in
        let page := getPageNumberFromUrl url in
        storeUrl url
          (setPagination
             (mkPagination (data_next data) (data_previous data)
                           (if page =? 0 then 1 else page) (count data))
             (setEmployees employeesList st))
    | _ => setAlert fetch_error_alert st
    end in
  setLoading false st.

(** The body of a regeneration response. *)
Record RegenData : Type := mkRegenData {
  regen_temp_password : option string;
  regen_password : option string;
  regen_message : option string;
  regen_error : option string
}.

(** The text of [empId] inside a template literal. *)
Definition show_id (empId : option string) : string :=
  match empId with Some s => s | None => "undefined" end.

Definition option_string_eqb (a b : option string) : bool :=
  match a, b with
  | Some x, Some y => (x =? y)%string
  | None, None => true
  | _, _ => false
  end.

(** [data.temp_password || data.password || ""]. *)
Definition new_password (data : RegenData) : string :=
  str_or (regen_temp_password data) (str_or (regen_password data) "").

(** [regeneratePassword(empId)] once the request has settled; [empId] is
    the [emp_id] of the clicked row.  The success notice is cleared by a
    timer later on, see [dismiss_alert]. *)
Definition regeneratePassword (empId : option string) (res : FetchResult RegenData) (st : State) : State :=
  let st := setRegenLoading (Some empId) st in
  let st :=
    match res with
    | Response true (Some data) =>
        let st :=
          setEmployees
            (map (fun emp =>
                    if option_string_eqb (emp_id emp) empId
                    then with_password (new_password data) emp
                    else emp)
                 (employees st)) st in
        setAlert (mkAlert true
                    (str_or (regen_message data) ("Password regenerated for " ++ show_id empId))
                    "success") st
    | _ =>
        setAlert (mkAlert true ("Failed to regenerate password for " ++ show_id empId ++ ".")
                          "danger") st
    end in
  setRegenLoading None st.

Definition dismiss_alert (st : State) : State :=
  setAlert (mkAlert false "" "") st.

(** Searching the loaded page: every field is read with [?.]. *)
Definition matches_opt (q : string) (x : option string) : result bool :=
  match x with
  | Some s => Ok (includes (toLowerCase q) (toLowerCase s))
  | None => Ok false
  end.

Definition search_pred (q : string) (emp : LoginRecord) : result bool :=
  or_else (matches_opt q (full_name emp))
    (or_else (matches_opt q (emp_id emp))
             (matches_opt q (username emp))).

Definition filteredData (st : State) : result (list LoginRecord) :=
  filter_r (search_pred (search st)) (employees st).

(** *** Paging and sorting the credentials *)

Definition handlePageClick_url (pageNum : Z) : string :=
  API_URL ++ "?page=" ++ string_of_Z pageNum.

(** The URL the mount effect fetches: the saved one when there is one. *)
Definition mount_url (st : State) : string :=
  match loginDetailsPageUrl st with
  | Some u => if (u =? "")%string then API_URL else u
  | None => API_URL
  end.



(** [a[key]]: [None] when the record has no such property. *)
Definition field (k : string) (e : LoginRecord) : option Performance.Val :=
  if (k =? "emp_id")%string then Some (Performance.of_str (emp_id e))
  else if (k =? "full_name")%string then Some (Performance.of_str (full_name e))
  else if (k =? "username")%string then Some (Performance.of_str (username e))
  else if (k =? "temp_password")%string then Some (Performance.of_str (temp_password e))
  else if (k =? "password")%string then Some (Performance.of_str (password e))
  else None.

(** [a[key] < b[key]]: false when a side is [undefined]. *)
Definition field_lt (k : string) (a b : LoginRecord) : bool :=
  match field k a, field k b with
  | Some x, Some y => Performance.js_lt x y
  | _, _ => false
  end.

(** The comparator of [sortedData]. *)
Definition compare_rows (c : SortConfig) (a b : LoginRecord) : Z :=
  match key c with
  | None => 0
  | Some k =>
      if (k =? "")%string then 0
      else if field_lt k a b then (match direction c with asc => -1 | desc => 1 end)
      else if field_lt k b a then (match direction c with asc => 1 | desc => -1 end)
      else 0
  end.

Definition sortedData (st : State) : result (list LoginRecord) :=
  bind (filteredData st) (fun l => Ok (js_sort (compare_rows (sortConfig st)) l)).

Definition setSortConfig (c : SortConfig) (st : State) : State :=
  mkState (employees st) (search st) c (alert st) (loading st) (regenLoading st)
          (pagination st) (loginDetailsPageUrl st).

Definition handleSort (k : string) (st : State) : State :=
  let d :=
    match key (sortConfig st), direction (sortConfig st) with
    | Some k', asc => if (k' =? k)%string then desc else asc
    | _, _ => asc
    end in
  setSortConfig (mkSortConfig (Some k) d) st.

End Login.

(** ** Sample pages *)

Definition sample_record : Performance.PerfRecord :=
  Performance.mkPerfRecord (Some "E001") (Some "Asha Rao") (Some "Engineering")
    (Some 90) None (Some 1) (Some "ev-1").

Definition loaded_state : Performance.State :=
  Performance.mkState "2025-W46" [sample_record]
    (Performance.mkSortConfig None Performance.asc) "" false 1 (Js.Num 1).

Definition nameless_record : Performance.PerfRecord :=
  Performance.mkPerfRecord None None (Some "Engineering") (Some 90) None (Some 1) (Some "ev-1").

Definition nameless_state : Performance.State :=
  Performance.mkState "2025-W46" [nameless_record]
    (Performance.mkSortConfig None Performance.asc) "eng" false 1 (Js.Num 1).

Definition no_department_record : Performance.PerfRecord :=
  Performance.mkPerfRecord (Some "E7") None None (Some 90) None (Some 1) (Some "ev-7").

Definition no_department_state : Performance.State :=
  Performance.mkState "2025-W46" [no_department_record; sample_record]
    (Performance.mkSortConfig None Performance.asc) "eng" false 1 (Js.Num 1).

Definition row (i : string) (score : Z) : Performance.PerfRecord :=
  Performance.mkPerfRecord (Some i) (Some "Name") (Some "Dept") (Some score) None None (Some i).

Definition row_E1 : Performance.PerfRecord := row "E1" 95.
Definition row_E2 : Performance.PerfRecord := row "E2" 90.
Definition row_E3 : Performance.PerfRecord := row "E3" 90.

(** A page in server order, with two equal scores, before any click. *)
Definition server_page : Performance.State :=
  Performance.mkState "2025-W46" [row_E3; row_E1; row_E2]
    (Performance.mkSortConfig None Performance.asc) "" false 1 (Js.Num 1).

(** A page the server sent in ascending order of score. *)
Definition ascending_page : Performance.State :=
  Performance.mkState "2025-W46" [row "E1" 80; row "E2" 90]
    (Performance.mkSortConfig None Performance.asc) "" false 1 (Js.Num 1).

Definition two_rows : Login.State :=
  Login.mkState
    [Login.mkLoginRecord (Some "E1") (Some "Asha Rao") (Some "asha") (Some "old1") (Some "old1");
     Login.mkLoginRecord (Some "E2") (Some "Ben Lee") (Some "ben") (Some "old2") (Some "old2")]
    "" (Login.mkSortConfig None Login.asc) (Login.mkAlert false "" "") false None
    (Login.mkPagination None None 1 (Some 2)) None.

Definition regenerated : Login.RegenData :=
  Login.mkRegenData (Some "fresh") (Some "other") (Some "done") None.

(** * Properties *)

(** ** Strings: the week marker *)

Section DashW.
Import Js.

Lemma prefix_dashW (s : string) :
  String.prefix "-W" s = true <-> exists post, s = "-W" ++ post.
Proof.
  split.
  - destruct s as [|c [|d post]]; cbn [String.prefix]; try discriminate.
    + destruct (ascii_dec "-" c); discriminate.
    + destruct (ascii_dec "-" c) as [<-|]; [|discriminate].
      destruct (ascii_dec "W" d) as [<-|]; [|discriminate].
      intros _. now exists post.
  - intros [post ->]. destruct post; reflexivity.
Qed.

Lemma prefix_dashW_lit (r : string) :
  String.prefix "-W" (String "-" (String "W" r)) = true.
Proof. apply prefix_dashW. now exists r. Qed.

Lemma includes_cons (needle : string) (c : ascii) (s : string) :
  includes needle (String c s) = String.prefix needle (String c s) || includes needle s.
Proof. reflexivity. Qed.

(** A string that contains the marker splits at its first occurrence. *)
Lemma includes_dashW_first (s : string) :
  includes "-W" s = true ->
  exists pre post, s = pre ++ "-W" ++ post /\ includes "-W" pre = false.
Proof.
  induction s as [|c s IH]; [discriminate|].
  rewrite includes_cons. destruct (String.prefix "-W" (String c s)) eqn:P.
  - intros _. apply prefix_dashW in P as [post ->]. now exists "", post.
  - simpl orb. intros H. destruct (IH H) as (pre & post & -> & Hpre).
    exists (String c pre), post. split; [reflexivity|].
    rewrite includes_cons, Hpre, orb_false_r.
    destruct (String.prefix "-W" (String c pre)) eqn:Q; [|reflexivity].
    apply prefix_dashW in Q as [post' Q]. simpl in Q. injection Q as -> ->.
    change (String "-" (String "W" post' ++ "-W" ++ post))
      with (String "-" (String "W" (post' ++ "-W" ++ post))) in P.
    rewrite prefix_dashW_lit in P. discriminate P.
Qed.

Lemma includes_dashW_app (pre post : string) :
  includes "-W" (pre ++ "-W" ++ post) = true.
Proof.
  induction pre as [|c pre IH].
  - change ("" ++ "-W" ++ post) with (String "-" (String "W" post)).
    rewrite includes_cons.
    now rewrite prefix_dashW_lit.
  - change (String c pre ++ "-W" ++ post) with (String c (pre ++ "-W" ++ post)).
    rewrite includes_cons, IH. apply orb_true_r.
Qed.

Lemma split_dashW_keep (c : ascii) (s : string) :
  String.prefix "-W" (String c s) = false ->
  split_dashW (String c s) =
  match split_dashW s with
  | seg :: segs => String c seg :: segs
  | [] => [String c ""]
  end.
Proof.
  intros P. simpl. destruct (Ascii.eqb_spec c "-") as [->|]; [|reflexivity].
  destruct s as [|d r]; [reflexivity|].
  destruct (Ascii.eqb_spec d "W") as [->|]; [|reflexivity].
  rewrite prefix_dashW_lit in P. discriminate P.
Qed.

(** [split] cuts at the first marker. *)
Lemma split_dashW_first (pre post : string) :
  includes "-W" pre = false ->
  split_dashW (pre ++ "-W" ++ post) = pre :: split_dashW post.
Proof.
  induction pre as [|c pre IH]; intros H; [reflexivity|].
  rewrite includes_cons in H. apply orb_false_iff in H as [P H].
  change (String c pre ++ "-W" ++ post) with (String c (pre ++ "-W" ++ post)).
  rewrite split_dashW_keep, (IH H); [reflexivity|].
  destruct (String.prefix "-W" (String c (pre ++ "-W" ++ post))) eqn:Q; [|reflexivity].
  apply prefix_dashW in Q as [post' Q]. injection Q as -> Q.
  destruct pre as [|d pre]; [discriminate Q|].
  injection Q as -> _. rewrite prefix_dashW_lit in P. discriminate P.
Qed.

Lemma split_dashW_none (s : string) :
  includes "-W" s = false -> split_dashW s = [s].
Proof.
  induction s as [|c s IH]; intros H; [reflexivity|].
  rewrite includes_cons in H. apply orb_false_iff in H as [P H].
  now rewrite (split_dashW_keep _ _ P), (IH H).
Qed.

End DashW.

(** ** [parseInt] stops at the week marker *)

Section ParseInt.
Import Js.

Lemma parse_digits_stop (r : Z) (c : ascii) (t s : string) (acc : option Z) :
  digit_value c = None ->
  parse_digits r (s ++ String c t) acc = parse_digits r s acc.
Proof.
  intros Hc. revert acc. induction s as [|d s IH]; intros acc; simpl.
  - now rewrite Hc.
  - destruct (digit_value d) as [v|]; [|reflexivity].
    destruct (v <? r); [apply IH|reflexivity].
Qed.

Lemma strip_hex_dash (s t : string) :
  strip_hex (s ++ String "-" t) =
  (fst (strip_hex s), snd (strip_hex s) ++ String "-" t).
Proof.
  destruct s as [|c [|x s]]; simpl.
  - destruct t; reflexivity.
  - now rewrite andb_false_r.
  - destruct (Ascii.eqb c "0" && (Ascii.eqb x "x" || Ascii.eqb x "X")); reflexivity.
Qed.

Lemma trimStart_dash (s t : string) :
  trimStart (s ++ String "-" t) =
  match trimStart s with
  | EmptyString => String "-" t
  | s' => s' ++ String "-" t
  end.
Proof.
  induction s as [|c s IH]; simpl; [reflexivity|].
  destruct (is_white_space c); [apply IH|reflexivity].
Qed.

(** Appending the marker and anything after it does not change what
    [parseInt] reads. *)
Lemma parseInt_dashW (seg more : string) :
  parseInt (seg ++ "-W" ++ more) = parseInt seg.
Proof.
  change ("-W" ++ more) with (String "-" (String "W" more)).
  unfold parseInt. rewrite trimStart_dash.
  destruct (trimStart seg) as [|c r].
  - destruct more as [|m more]; reflexivity.
  - change (String c r ++ String "-" (String "W" more))
      with (String c (r ++ String "-" (String "W" more))).
    assert (E : strip_sign (String c (r ++ String "-" (String "W" more))) =
                (fst (strip_sign (String c r)),
                 snd (strip_sign (String c r)) ++ String "-" (String "W" more))).
    { simpl. destruct (Ascii.eqb c "-"); [reflexivity|].
      destruct (Ascii.eqb c "+"); reflexivity. }
    rewrite E. destruct (strip_sign (String c r)) as [sign s1]. simpl fst; simpl snd.
    rewrite strip_hex_dash. destruct (strip_hex s1) as [rad s2]. simpl fst; simpl snd.
    now rewrite parse_digits_stop.
Qed.

End ParseInt.

(** ** The week parser *)

Section ParseWeek.
Import Js Report.

Lemma parseWeek_none (s : string) :
  includes "-W" s = false -> parseWeek (Some s) = nulls.
Proof. intros H. unfold parseWeek. rewrite H. now rewrite orb_true_r. Qed.

Lemma includes_nonempty (s : string) : includes "-W" s = true -> (s =? "")%string = false.
Proof. destruct s; [discriminate|reflexivity]. Qed.

Lemma split_dashW_head (s : string) :
  exists seg segs, split_dashW s = seg :: segs /\
    (s = seg \/ exists more, s = seg ++ "-W" ++ more).
Proof.
  destruct (includes "-W" s) eqn:H.
  - apply includes_dashW_first in H as (pre & post & -> & Hpre).
    exists pre, (split_dashW post). split; [now apply split_dashW_first|]. right. now exists post.
  - exists s, []. split; [now apply split_dashW_none|]. now left.
Qed.

Lemma parseInt_second (post : string) :
  parseInt_arg (nth_error (split_dashW post) 0) = parseInt post.
Proof.
  destruct (split_dashW_head post) as (seg & segs & -> & [->| [more ->]]); simpl.
  - reflexivity.
  - symmetry. apply parseInt_dashW.
Qed.

Lemma parseWeek_marker (pre post : string) :
  includes "-W" pre = false ->
  parseWeek (Some (pre ++ "-W" ++ post)) =
  mkWeekParts (Some (parseInt pre)) (Some (parseInt post)).
Proof.
  intros H. unfold parseWeek.
  rewrite includes_dashW_app, (includes_nonempty _ (includes_dashW_app pre post)).
  simpl orb. cbv iota. rewrite (split_dashW_first _ _ H).
  change (nth_error (pre :: split_dashW post) 1) with (nth_error (split_dashW post) 0).
  now rewrite parseInt_second.
Qed.

End ParseWeek.

(** ** The request URL of the performance fetcher *)

Section RequestUrl.
Import Js Report Performance.

Lemma prefix_app (n b : string) : String.prefix n (n ++ b) = true.
Proof.
  induction n as [|c n IH]; cbn [String.prefix append]; [now destruct b|].
  destruct (ascii_dec c c); [exact IH|congruence].
Qed.

Lemma includes_prefix (n s : string) : String.prefix n s = true -> includes n s = true.
Proof. intros H. destruct s; cbn [includes]; now rewrite H. Qed.

Lemma includes_app (n a b : string) : includes n (a ++ n ++ b) = true.
Proof.
  induction a as [|c a IH].
  - change ("" ++ n ++ b) with (n ++ b). apply includes_prefix, prefix_app.
  - change (String c a ++ n ++ b) with (String c (a ++ n ++ b)).
    rewrite includes_cons, IH. apply orb_true_r.
Qed.

Lemma numeric_uint (d : Decimal.uint) :
  all_chars numeric_char (NilEmpty.string_of_uint d) = true.
Proof. induction d; simpl; now rewrite ?IHd. Qed.

Lemma numeric_uint0 (d : Decimal.uint) :
  all_chars numeric_char (NilZero.string_of_uint d) = true.
Proof. destruct d; try apply numeric_uint. reflexivity. Qed.

(** The decimal text of an integer holds digits and a sign only, and is
    not empty. *)
Lemma numeric_string_of_Z (z : Z) : all_chars numeric_char (string_of_Z z) = true.
Proof.
  unfold string_of_Z, NilZero.string_of_int.
  destruct (Z.to_int z) as [d|d]; [apply numeric_uint0|].
  cbn [all_chars]. now rewrite numeric_uint0.
Qed.

Lemma uint0_nonempty (d : Decimal.uint) : NilZero.string_of_uint d <> "".
Proof. destruct d; discriminate. Qed.

Lemma string_of_Z_nonempty (z : Z) : string_of_Z z <> "".
Proof.
  unfold string_of_Z, NilZero.string_of_int.
  destruct (Z.to_int z) as [d|d]; [apply uint0_nonempty|discriminate].
Qed.

Lemma append_assoc (a b c : string) : (a ++ b) ++ c = a ++ b ++ c.
Proof. induction a as [|x a IH]; simpl; [reflexivity|]. now rewrite IH. Qed.

Lemma prefix_cut (n l : string) (d : ascii) (x : string) :
  occurs d n = false ->
  String.prefix n (l ++ String d x) = String.prefix n l.
Proof.
  revert l. induction n as [|c n IH]; intros l H.
  - now destruct l.
  - simpl in H. apply orb_false_iff in H as [Hc Hn].
    destruct l as [|b l]; cbn [String.prefix append].
    + destruct (ascii_dec c d) as [->|]; [|reflexivity].
      now rewrite Ascii.eqb_refl in Hc.
    + destruct (ascii_dec c b); [now apply IH|reflexivity].
Qed.

(** An occurrence of [n] cannot run over a code unit that [n] lacks. *)
Lemma includes_cut (n l : string) (d : ascii) (x : string) :
  occurs d n = false ->
  includes n (l ++ String d x) = includes n l || includes n (String d x).
Proof.
  intros H. induction l as [|b l IH].
  - simpl append. destruct n as [|c n]; [now destruct x|reflexivity].
  - change (String b l ++ String d x) with (String b (l ++ String d x)).
    rewrite !includes_cons, IH.
    change (String b (l ++ String d x)) with (String b l ++ String d x).
    now rewrite (prefix_cut _ _ _ _ H), orb_assoc.
Qed.

Lemma occurs_other (p : ascii -> bool) (n : string) (d : ascii) :
  all_chars (fun c => negb (p c)) n = true -> p d = true -> occurs d n = false.
Proof.
  intros Hn Hd. induction n as [|c n IH]; [reflexivity|].
  simpl in Hn. apply andb_true_iff in Hn as [Hc Hn].
  simpl. rewrite (IH Hn), orb_false_r. apply Ascii.eqb_neq. intros ->.
  rewrite Hd in Hc. discriminate Hc.
Qed.

Lemma includes_skip (p : ascii -> bool) (c : ascii) (n t r : string) :
  all_chars (fun c => negb (p c)) (String c n) = true ->
  all_chars p t = true ->
  includes (String c n) (t ++ r) = includes (String c n) r.
Proof.
  intros Hn. induction t as [|d t IH]; intros Ht; [reflexivity|].
  simpl in Ht. apply andb_true_iff in Ht as [Hd Ht].
  change (String d t ++ r) with (String d (t ++ r)).
  rewrite includes_cons, (IH Ht). cbn [String.prefix].
  destruct (ascii_dec c d) as [->|]; [|reflexivity].
  simpl in Hn. now rewrite Hd in Hn.
Qed.

(** A needle without digits and without a sign occurs around the text of
    an integer only if it occurs before it or after it. *)
Lemma includes_around_number (c : ascii) (n l r : string) (z : Z) :
  all_chars (fun c => negb (numeric_char c)) (String c n) = true ->
  includes (String c n) (l ++ string_of_Z z ++ r) =
  includes (String c n) l || includes (String c n) r.
Proof.
  intros Hn. pose proof (numeric_string_of_Z z) as Hz.
  pose proof (string_of_Z_nonempty z) as Hne.
  destruct (string_of_Z z) as [|d t] eqn:E; [congruence|].
  change (String d t ++ r) with (String d (t ++ r)).
  simpl in Hz. apply andb_true_iff in Hz as [Hd Ht].
  rewrite includes_cut by (now apply (occurs_other numeric_char)).
  f_equal. change (String d (t ++ r)) with (String d t ++ r).
  apply (includes_skip numeric_char); [assumption|]. simpl. now rewrite Hd.
Qed.

Lemma week_parts (pre post : string) :
  includes "-W" pre = false ->
  parseInt_arg (nth_error (split_dashW (pre ++ "-W" ++ post)) 0) = parseInt pre /\
  parseInt_arg (nth_error (split_dashW (pre ++ "-W" ++ post)) 1) = parseInt post.
Proof.
  intros H. rewrite (split_dashW_first _ _ H). split; [reflexivity|].
  change (nth_error (pre :: split_dashW post) 1) with (nth_error (split_dashW post) 0).
  apply parseInt_second.
Qed.

Lemma filtered_url_marker (pre post : string) :
  includes "-W" pre = false ->
  filtered_url (pre ++ "-W" ++ post) =
  match parseInt pre, parseInt post with
  | Num y, Num w => summary_url ++ "?week=" ++ string_of_Z w ++ "&year=" ++ string_of_Z y
  | _, _ => summary_url
  end.
Proof.
  intros H. unfold filtered_url.
  rewrite includes_dashW_app, (includes_nonempty _ (includes_dashW_app pre post)).
  destruct (week_parts pre post H) as [-> ->].
  destruct (parseInt pre), (parseInt post); reflexivity.
Qed.

Lemma filtered_url_nomarker (week : string) :
  includes "-W" week = false -> filtered_url week = summary_url.
Proof. intros H. unfold filtered_url. now rewrite H, andb_false_r. Qed.

Lemma paginatedUrl_filtered (week : string) (page y w : Z) :
  filtered_url week = summary_url ++ "?week=" ++ string_of_Z w ++ "&year=" ++ string_of_Z y ->
  paginatedUrl week page =
  summary_url ++ "?week=" ++ string_of_Z w ++ "&year=" ++ string_of_Z y
    ++ "&page=" ++ string_of_Z page ++ "&page_size=10".
Proof.
  intros E. unfold paginatedUrl. rewrite E.
  change ("?week=" ++ string_of_Z w ++ "&year=" ++ string_of_Z y)
    with ("?" ++ ("week=" ++ string_of_Z w ++ "&year=" ++ string_of_Z y)).
  rewrite includes_app, !append_assoc. reflexivity.
Qed.

Lemma paginatedUrl_unfiltered (week : string) (page : Z) :
  filtered_url week = summary_url ->
  paginatedUrl week page = summary_url ++ "?page=" ++ string_of_Z page ++ "&page_size=10".
Proof.
  intros E. unfold paginatedUrl. rewrite E.
  replace (includes "?" summary_url) with false by (vm_compute; reflexivity).
  reflexivity.
Qed.

(** The two shapes of the request URL. *)
Lemma paginatedUrl_cases (week : string) (page : Z) :
  (exists y w, week_filter week y w /\
     paginatedUrl week page =
     summary_url ++ "?week=" ++ string_of_Z w ++ "&year=" ++ string_of_Z y
       ++ "&page=" ++ string_of_Z page ++ "&page_size=10")
  \/
  ((forall y w, ~ week_filter week y w) /\
     paginatedUrl week page = summary_url ++ "?page=" ++ string_of_Z page ++ "&page_size=10").
Proof.
  destruct (includes "-W" week) eqn:H.
  - destruct (includes_dashW_first _ H) as (pre & post & -> & Hpre).
    pose proof (filtered_url_marker pre post Hpre) as E.
    destruct (parseInt pre) as [|y] eqn:Ey; [|destruct (parseInt post) as [|w] eqn:Ew].
    + right. split; [|now apply paginatedUrl_unfiltered].
      intros y w (pre' & post' & E' & H' & Hy & Hw).
      pose proof (filtered_url_marker pre' post' H') as E2.
      rewrite <- E', E, Hy, Hw in E2.
      assert (X : includes "?" summary_url = true)
        by (rewrite E2; change ("?week=" ++ string_of_Z w ++ "&year=" ++ string_of_Z y)
              with ("?" ++ ("week=" ++ string_of_Z w ++ "&year=" ++ string_of_Z y));
            apply includes_app).
      vm_compute in X. discriminate X.
    + right. split; [|now apply paginatedUrl_unfiltered].
      intros y' w (pre' & post' & E' & H' & Hy & Hw).
      pose proof (filtered_url_marker pre' post' H') as E2.
      rewrite <- E', E, Hy, Hw in E2.
      assert (X : includes "?" summary_url = true)
        by (rewrite E2; change ("?week=" ++ string_of_Z w ++ "&year=" ++ string_of_Z y')
              with ("?" ++ ("week=" ++ string_of_Z w ++ "&year=" ++ string_of_Z y'));
            apply includes_app).
      vm_compute in X. discriminate X.
    + left. exists y, w. split; [now exists pre, post|now apply paginatedUrl_filtered].
  - right. split; [|now apply paginatedUrl_unfiltered, filtered_url_nomarker].
    intros y w (pre & post & -> & _). now rewrite includes_dashW_app in H.
Qed.

End RequestUrl.

(** ** Claims on the week parser and on the request URL *)

Section WeekClaims.
Import Js Report Performance.

Lemma includes_at (n a b s : string) : s = a ++ n ++ b -> includes n s = true.
Proof. intros ->. apply includes_app. Qed.

(** C3, counterexample: ["abc-Wxy"] is not of the shape [YYYY-Www], yet
    the parser answers it with two [NaN] components, not with two nulls. *)
Lemma C3_malformed_with_marker :
  well_formed_week "abc-Wxy" = false /\
  parseWeek (Some "abc-Wxy") = mkWeekParts (Some NaN) (Some NaN) /\
  parseWeek (Some "abc-Wxy") <> nulls.
Proof. repeat split; try reflexivity. vm_compute. discriminate. Qed.

(** C3, as amended: the parser maps ["2025-W46"] to year 2025 and week 46,
    and maps every input that lacks the ["-W"] marker (such as
    ["garbage"]), the empty string and a nullish argument to two nulls; it
    is a total function, so no such call throws. *)
Theorem C3_parseWeek_without_marker :
  parseWeek (Some "2025-W46") = mkWeekParts (Some (Num 2025)) (Some (Num 46)) /\
  parseWeek (Some "garbage") = nulls /\
  parseWeek (Some "") = nulls /\
  parseWeek None = nulls /\
  (forall s, includes "-W" s = false -> parseWeek (Some s) = nulls).
Proof. repeat split; try reflexivity. apply parseWeek_none. Qed.

Lemma C3_parseWeek_without_marker_witness :
  includes "-W" "2025W46" = false /\ parseWeek (Some "2025W46") = nulls.
Proof.
  split; [reflexivity|].
  apply (proj2 (proj2 (proj2 (proj2 C3_parseWeek_without_marker)))). reflexivity.
Defined.

(** C9: an input that contains ["-W"] is answered with [parseInt] of the
    part before the first ["-W"] and [parseInt] of the part after it, never
    with nulls (["abc-Wxy"] gives two [NaN]); two nulls are the answer
    exactly when the input is nullish, empty, or has no ["-W"]. *)
Theorem C9_parseWeek_with_marker :
  (forall s, includes "-W" s = true ->
     exists pre post,
       s = pre ++ "-W" ++ post /\ includes "-W" pre = false /\
       parseWeek (Some s) = mkWeekParts (Some (parseInt pre)) (Some (parseInt post)) /\
       parseWeek (Some s) <> nulls) /\
  (forall w, parseWeek w = nulls <->
     w = None \/ w = Some "" \/ exists s, w = Some s /\ includes "-W" s = false) /\
  parseWeek (Some "abc-Wxy") = mkWeekParts (Some NaN) (Some NaN).
Proof.
  split; [|split; [|reflexivity]].
  - intros s H. destruct (includes_dashW_first _ H) as (pre & post & -> & Hpre).
    exists pre, post. rewrite (parseWeek_marker _ _ Hpre). repeat split; try assumption.
    discriminate.
  - intros [s|]; split.
    + intros E. destruct (includes "-W" s) eqn:H.
      * destruct (includes_dashW_first _ H) as (pre & post & -> & Hpre).
        rewrite (parseWeek_marker _ _ Hpre) in E. discriminate E.
      * right. right. now exists s.
    + intros [E|[E|(s' & E & H)]]; try discriminate E.
      * injection E as ->. reflexivity.
      * injection E as ->. now apply parseWeek_none.
    + intros _. now left.
    + reflexivity.
Qed.

Lemma C9_parseWeek_with_marker_witness :
  exists pre post,
    "abc-Wxy" = pre ++ "-W" ++ post /\ includes "-W" pre = false /\
    parseWeek (Some "abc-Wxy") = mkWeekParts (Some (parseInt pre)) (Some (parseInt post)) /\
    parseWeek (Some "abc-Wxy") <> nulls.
Proof. apply (proj1 C9_parseWeek_with_marker "abc-Wxy"). reflexivity. Defined.

(** C10: the request URL of the performance fetcher carries [week] and
    [year] parameters if and only if the selected week contains ["-W"] and
    both of its parts parse to integers; for any other selected week the
    request goes out without them; [page] and [page_size] are always there. *)
Theorem C10_week_filter_in_url (week : string) (page : Z) :
  (forall y w, week_filter week y w ->
     paginatedUrl week page =
     summary_url ++ "?week=" ++ string_of_Z w ++ "&year=" ++ string_of_Z y
       ++ "&page=" ++ string_of_Z page ++ "&page_size=10") /\
  ((forall y w, ~ week_filter week y w) ->
     paginatedUrl week page = summary_url ++ "?page=" ++ string_of_Z page ++ "&page_size=10") /\
  (includes "week=" (paginatedUrl week page) = true <-> exists y w, week_filter week y w) /\
  (includes "year=" (paginatedUrl week page) = true <-> exists y w, week_filter week y w) /\
  includes "page=" (paginatedUrl week page) = true /\
  includes "page_size=" (paginatedUrl week page) = true.
Proof.
  assert (F : forall y w, week_filter week y w ->
     paginatedUrl week page =
     summary_url ++ "?week=" ++ string_of_Z w ++ "&year=" ++ string_of_Z y
       ++ "&page=" ++ string_of_Z page ++ "&page_size=10").
  { intros y w (pre & post & -> & Hpre & Hy & Hw).
    apply paginatedUrl_filtered. now rewrite (filtered_url_marker _ _ Hpre), Hy, Hw. }
  split; [exact F|].
  destruct (paginatedUrl_cases week page) as [(y & w & Hf & E)|[Hn E]].
  - split; [intros Hn; now destruct (Hn y w)|].
    rewrite E. repeat split; intros; eauto.
    + apply (includes_at _ (summary_url ++ "?")
               (string_of_Z w ++ "&year=" ++ string_of_Z y ++ "&page=" ++ string_of_Z page
                  ++ "&page_size=10")).
      now rewrite !append_assoc.
    + apply (includes_at _ (summary_url ++ "?week=" ++ string_of_Z w ++ "&")
               (string_of_Z y ++ "&page=" ++ string_of_Z page ++ "&page_size=10")).
      now rewrite !append_assoc.
    + apply (includes_at _ (summary_url ++ "?week=" ++ string_of_Z w ++ "&year="
                              ++ string_of_Z y ++ "&")
               (string_of_Z page ++ "&page_size=10")).
      now rewrite !append_assoc.
    + apply (includes_at _ (summary_url ++ "?week=" ++ string_of_Z w ++ "&year="
                              ++ string_of_Z y ++ "&page=" ++ string_of_Z page ++ "&") "10").
      now rewrite !append_assoc.
  - split; [intros _; exact E|].
    rewrite E. repeat split.
    + intros H. exfalso.
      change (summary_url ++ "?page=" ++ string_of_Z page ++ "&page_size=10")
        with ((summary_url ++ "?page=") ++ string_of_Z page ++ "&page_size=10") in H.
      rewrite includes_around_number in H by reflexivity. vm_compute in H. discriminate H.
    + intros (y & w & Hf). now destruct (Hn y w).
    + intros H. exfalso.
      change (summary_url ++ "?page=" ++ string_of_Z page ++ "&page_size=10")
        with ((summary_url ++ "?page=") ++ string_of_Z page ++ "&page_size=10") in H.
      rewrite includes_around_number in H by reflexivity. vm_compute in H. discriminate H.
    + intros (y & w & Hf). now destruct (Hn y w).
    + apply (includes_at _ (summary_url ++ "?") (string_of_Z page ++ "&page_size=10")).
      now rewrite !append_assoc.
    + apply (includes_at _ (summary_url ++ "?page=" ++ string_of_Z page ++ "&") "10").
      now rewrite !append_assoc.
Qed.

Lemma C10_week_filter_in_url_witness :
  week_filter "2025-W46" 2025 46 /\
  paginatedUrl "2025-W46" 3 =
  "http://127.0.0.1:8000/api/performance/summary/?week=46&year=2025&page=3&page_size=10".
Proof.
  assert (W : week_filter "2025-W46" 2025 46).
  { exists "2025", "46". repeat split; reflexivity. }
  split; [exact W|].
  exact (proj1 (C10_week_filter_in_url "2025-W46" 3) 2025 46 W).
Defined.

End WeekClaims.

(** ** The selectable week range *)

Section WeekRange.
Import Js Performance.

(** Once the week number [W] has been read, the range is the one intended:
    the week before and the week itself, week 52 of the year before when
    [W] is 1. *)
Lemma getAllowedWeeks_of_week (today : DateObject) (W : Z) :
  Number (toLocaleDateString today "en-GB" [("week", "numeric"); ("year", "numeric")]) = Num W ->
  getAllowedWeeks today =
  if W =? 1
  then mkWeekRange (week_string (getFullYear today - 1) (Num 52))
                   (week_string (getFullYear today) (Num 1))
  else mkWeekRange (week_string (getFullYear today) (Num (W - 1)))
                   (week_string (getFullYear today) (Num W)).
Proof.
  intros E. unfold getAllowedWeeks. rewrite E. cbn [sub strict_eq_lit].
  destruct (Z.eqb_spec W 1) as [->|n].
  - reflexivity.
  - destruct (Z.eqb_spec (W - 1) 0); [lia|reflexivity].
Qed.

(** The options object of the call has no property that asks for a week:
    the only date component it requests is the year. *)
Lemma requested_week_year :
  requested [("week", "numeric"); ("year", "numeric")] = [("year", "numeric")].
Proof. reflexivity. Qed.

(** C2, the code at a failing input: on 5 March 2025, a day of ISO week 10
    of 2025, the range runs from ["2025-W2024"] to ["2025-W2025"], where
    the claim has ["2025-W09"] and ["2025-W10"]; on 30 December 2024, a
    day of ISO week 1 of 2025, it runs from ["2024-W2023"] to
    ["2024-W2024"]. *)
Theorem C2_getAllowedWeeks_reads_year_as_week :
  iso_week 2025 3 5 = (2025, 10) /\
  getAllowedWeeks (date_of 2025 3 5) = mkWeekRange "2025-W2024" "2025-W2025" /\
  getAllowedWeeks (date_of 2025 3 5) <> mkWeekRange "2025-W09" "2025-W10" /\
  iso_week 2024 12 30 = (2025, 1) /\
  getAllowedWeeks (date_of 2024 12 30) = mkWeekRange "2024-W2023" "2024-W2024".
Proof. repeat split; try reflexivity. vm_compute. discriminate. Qed.

End WeekRange.

(** ** Fetch failures *)

Section FetchFailure.
Import Js.

Lemma perf_rejected (st : Performance.State) :
  Performance.fetchPerformanceData Performance.Rejected st = Performance.setLoading false st.
Proof. reflexivity. Qed.

(** C4, counterexample: a rejected request leaves the loaded performance
    list in place; it is not emptied. *)
Lemma C4_performance_list_not_emptied :
  Performance.employees (Performance.fetchPerformanceData Performance.Rejected loaded_state)
    = [sample_record] /\
  Performance.employees (Performance.fetchPerformanceData Performance.Rejected loaded_state)
    <> [].
Proof. split; [reflexivity|discriminate]. Qed.

(** C4, as amended: on every fetch failure the credentials fetcher shows
    the generic error alert and leaves its record list unchanged; the
    performance fetcher leaves its record list unchanged as well. *)
Theorem C4_fetch_failure_keeps_lists :
  (forall url res st,
     Login.fetch_failed res = true ->
     Login.alert (Login.fetchEmployees url res st)
       = Login.mkAlert true "Error fetching employee data." "danger" /\
     Login.employees (Login.fetchEmployees url res st) = Login.employees st) /\
  (forall st,
     Performance.employees (Performance.fetchPerformanceData Performance.Rejected st)
       = Performance.employees st).
Proof.
  split.
  - intros url res st H. destruct res as [|[|] [data|]]; try discriminate H; now split.
  - reflexivity.
Qed.

Lemma C4_fetch_failure_keeps_lists_witness :
  Login.alert (Login.fetchEmployees Login.API_URL Login.NetworkError Login.initial)
    = Login.mkAlert true "Error fetching employee data." "danger" /\
  Login.employees (Login.fetchEmployees Login.API_URL Login.NetworkError Login.initial)
    = Login.employees Login.initial.
Proof.
  apply (proj1 C4_fetch_failure_keeps_lists Login.API_URL Login.NetworkError Login.initial).
  reflexivity.
Defined.

(** A rejected performance request changes the loading flag and nothing
    else: no field of the state holds an error. *)
Lemma perf_rejected_frame (st : Performance.State) :
  let st' := Performance.fetchPerformanceData Performance.Rejected st in
  Performance.loading st' = false /\
  Performance.week st' = Performance.week st /\
  Performance.sortConfig st' = Performance.sortConfig st /\
  Performance.searchQuery st' = Performance.searchQuery st /\
  Performance.page st' = Performance.page st /\
  Performance.totalPages st' = Performance.totalPages st.
Proof. repeat split. Qed.

End FetchFailure.

(** ** Searching *)

Section Search.
Import Js.

Lemma filter_r_total {A : Type} (p : A -> result bool) (b : A -> bool) (l : list A) :
  (forall x, In x l -> p x = Ok (b x)) -> filter_r p l = Ok (filter b l).
Proof.
  induction l as [|x l IH]; intros H; [reflexivity|].
  simpl. rewrite (H x (or_introl eq_refl)). simpl.
  rewrite IH by (intros y Hy; apply H; now right). reflexivity.
Qed.

Lemma matches_opt_field (q : string) (x : option string) :
  Login.matches_opt q x = Ok (field_matches q x).
Proof. now destruct x. Qed.

Lemma perf_matches_opt_field (q : string) (x : option string) :
  Performance.matches_opt q x = Ok (field_matches q x).
Proof. now destruct x. Qed.

Lemma or_else_ok (a b : bool) : or_else (Ok a) (Ok b) = Ok (a || b).
Proof. now destruct a. Qed.

(** C5, the code at a failing input: on a loaded page whose one record has
    a department that holds the query but neither full name nor employee
    id, the performance filter throws instead of treating the absent
    fields as non-matching, while the credentials filter, which reads the
    employee id with [?.], completes on a row without employee id. *)
Theorem C5_performance_filter_throws :
  Performance.full_name nameless_record = None /\
  Performance.emp_id nameless_record = None /\
  Performance.filteredEmployees nameless_state = Throw /\
  Login.filteredData
    (Login.setEmployees [Login.mkLoginRecord None None (Some "engel") None None]
       (Login.mkState [] "eng" (Login.mkSortConfig None Login.asc)
          (Login.mkAlert false "" "") false None (Login.mkPagination None None 1 (Some 1)) None))
  = Ok [Login.mkLoginRecord None None (Some "engel") None None].
Proof. repeat split. Qed.

(** The credentials filter never throws and keeps exactly the records of
    which a present field (full name, employee id, username) holds the
    query, an absent field matching nothing; the performance filter does
    the same with employee id, full name and department name on every
    page whose records all have an employee id. *)
Lemma search_skips_absent_fields :
  (forall st,
     Login.filteredData st =
     Ok (filter (fun emp =>
                   field_matches (Login.search st) (Login.full_name emp)
                   || field_matches (Login.search st) (Login.emp_id emp)
                   || field_matches (Login.search st) (Login.username emp))
                (Login.employees st))) /\
  (forall st,
     Forall (fun emp => Performance.emp_id emp <> None) (Performance.employees st) ->
     Performance.filteredEmployees st =
     Ok (filter (fun emp =>
                   field_matches (Performance.searchQuery st) (Performance.emp_id emp)
                   || field_matches (Performance.searchQuery st) (Performance.full_name emp)
                   || field_matches (Performance.searchQuery st) (Performance.department_name emp))
                (Performance.employees st))).
Proof.
  split.
  - intros st. apply filter_r_total. intros emp _. unfold Login.search_pred.
    now rewrite !matches_opt_field, !or_else_ok, orb_assoc.
  - intros st H. apply filter_r_total. intros emp Hin.
    rewrite Forall_forall in H. specialize (H emp Hin).
    unfold Performance.search_pred.
    destruct (Performance.emp_id emp) as [i|] eqn:E; [|congruence].
    rewrite !perf_matches_opt_field. cbn [Performance.matches field_matches].
    now rewrite !or_else_ok, orb_assoc.
Qed.

Lemma search_skips_absent_fields_example :
  Performance.filteredEmployees no_department_state = Ok [sample_record].
Proof. reflexivity. Qed.

End Search.

(** ** Password regeneration *)

Section Regeneration.
Import Js Login.

Lemma option_string_eqb_spec (a b : option string) :
  reflect (a = b) (option_string_eqb a b).
Proof.
  destruct a as [x|], b as [y|]; simpl; try (constructor; congruence).
  destruct (String.eqb_spec x y); constructor; congruence.
Qed.

Lemma regenerate_employees (empId : option string) (data : RegenData) (st : State) :
  employees (regeneratePassword empId (Response true (Some data)) st) =
  map (fun emp => if option_string_eqb (emp_id emp) empId
                  then with_password (new_password data) emp else emp)
      (employees st).
Proof. reflexivity. Qed.

(** C7: after a successful regeneration for [empId], a row whose [emp_id]
    is [empId] has the returned value as its password and its other fields
    as before, every other row is as before, and the returned value is
    [temp_password] if it is not empty, else [password] if it is not
    empty, else the empty string. *)
Theorem C7_regenerate_updates_target_only
    (empId : option string) (data : RegenData) (st : State) :
  let st' := regeneratePassword empId (Response true (Some data)) st in
  List.length (employees st') = List.length (employees st) /\
  (forall i emp, nth_error (employees st) i = Some emp ->
     (emp_id emp = empId ->
        exists emp', nth_error (employees st') i = Some emp' /\
          password emp' = Some (new_password data) /\
          emp_id emp' = emp_id emp /\ full_name emp' = full_name emp /\
          username emp' = username emp /\ temp_password emp' = temp_password emp) /\
     (emp_id emp <> empId -> nth_error (employees st') i = Some emp)) /\
  new_password data =
    match regen_temp_password data, regen_password data with
    | Some t, Some p => if (t =? "")%string then p else t
    | Some t, None => t
    | None, Some p => p
    | None, None => ""
    end.
Proof.
  intros st'. subst st'. rewrite regenerate_employees. split; [apply length_map|]. split.
  - intros i emp H. rewrite nth_error_map, H. simpl.
    destruct (option_string_eqb_spec (emp_id emp) empId) as [E|E]; split; intros E'.
    + eexists. split; [reflexivity|]. repeat split.
    + contradiction.
    + contradiction.
    + reflexivity.
  - unfold new_password, str_or.
    destruct (regen_temp_password data) as [t|], (regen_password data) as [p|];
      try reflexivity.
    + destruct (t =? "")%string; [|reflexivity]. destruct (String.eqb_spec p ""); congruence.
    + destruct (String.eqb_spec t ""); congruence.
    + destruct (String.eqb_spec p ""); congruence.
Qed.

Lemma C7_regenerate_updates_target_only_witness :
  (exists emp',
     nth_error (employees (regeneratePassword (Some "E2") (Response true (Some regenerated)) two_rows)) 1
       = Some emp' /\
     password emp' = Some "fresh" /\ emp_id emp' = Some "E2" /\
     full_name emp' = Some "Ben Lee" /\ username emp' = Some "ben" /\
     temp_password emp' = Some "old2") /\
  nth_error (employees (regeneratePassword (Some "E2") (Response true (Some regenerated)) two_rows)) 0
    = nth_error (employees two_rows) 0.
Proof.
  pose proof (C7_regenerate_updates_target_only (Some "E2") regenerated two_rows) as (_ & H & _).
  split.
  - exact (proj1 (H 1%nat _ eq_refl) eq_refl).
  - apply (proj2 (H 0%nat _ eq_refl)). discriminate.
Defined.

End Regeneration.

(** ** The sort

    [x] is placed after [y] when the comparator is positive on [(x, y)].
    The facts below hold for a consistent comparator: one whose
    "not after" relation is total and transitive. *)

Section SortFacts.
Context {A : Type} (cmp : A -> A -> Z).

Lemma insert_perm (x : A) (l : list A) : Permutation (insert cmp x l) (x :: l).
Proof.
  induction l as [|y l IH]; simpl; [reflexivity|].
  fold (after cmp x y). destruct (after cmp x y); [|reflexivity].
  rewrite IH. apply perm_swap.
Qed.

Lemma js_sort_perm (l : list A) : Permutation (js_sort cmp l) l.
Proof.
  induction l as [|x l IH]; simpl; [reflexivity|].
  rewrite insert_perm. now constructor.
Qed.

Lemma js_sort_in (l : list A) (x : A) : In x (js_sort cmp l) <-> In x l.
Proof.
  split; apply Permutation_in; [|symmetry]; apply js_sort_perm.
Qed.

(** A sorted array is left as it is. *)
Lemma insert_sorted_head (x : A) (l : list A) :
  Forall (before_eq cmp x) l -> insert cmp x l = x :: l.
Proof.
  intros H. destruct l as [|y l]; [reflexivity|].
  simpl. fold (after cmp x y). inversion H as [|? ? Hy _]; subst.
  now rewrite Hy.
Qed.

Lemma js_sort_sorted_id (l : list A) :
  StronglySorted (before_eq cmp) l -> js_sort cmp l = l.
Proof.
  induction 1 as [|x l Hs IH Hx]; [reflexivity|].
  simpl. rewrite IH. now apply insert_sorted_head.
Qed.

Hypothesis total : forall x y, after cmp x y = true -> after cmp y x = false.
Hypothesis trans : forall x y z, before_eq cmp x y -> before_eq cmp y z -> before_eq cmp x z.

Lemma insert_sorted (x : A) (l : list A) :
  StronglySorted (before_eq cmp) l -> StronglySorted (before_eq cmp) (insert cmp x l).
Proof.
  induction 1 as [|y l Hs IH Hy]; simpl.
  - repeat constructor.
  - fold (after cmp x y). destruct (after cmp x y) eqn:E.
    + constructor; [exact IH|].
      apply (Permutation_Forall (Permutation_sym (insert_perm x l))).
      constructor; [now apply total|exact Hy].
    + constructor; [now constructor|].
      constructor; [exact E|].
      eapply Forall_impl; [|exact Hy]. intros z Hz. now apply (trans x y z).
Qed.

Lemma js_sort_sorted (l : list A) : StronglySorted (before_eq cmp) (js_sort cmp l).
Proof.
  induction l as [|x l IH]; simpl; [constructor|]. now apply insert_sorted.
Qed.

Lemma before_eq_refl (x : A) : before_eq cmp x x.
Proof.
  unfold before_eq. destruct (after cmp x x) eqn:E; [|reflexivity].
  now rewrite (total x x E) in E.
Qed.

Lemma same_class_refl (x : A) : same_class cmp x x = true.
Proof. unfold same_class. now rewrite before_eq_refl. Qed.

Lemma same_class_spec (k x : A) :
  same_class cmp k x = true <-> before_eq cmp k x /\ before_eq cmp x k.
Proof.
  unfold same_class, before_eq. rewrite andb_true_iff, !negb_true_iff. tauto.
Qed.

(** The sort is stable: the records of one class keep their order. *)
Lemma insert_class (k x : A) (l : list A) :
  filter (same_class cmp k) (insert cmp x l) = filter (same_class cmp k) (x :: l).
Proof.
  induction l as [|y l IH]; [reflexivity|].
  cbn [insert]. fold (after cmp x y). destruct (after cmp x y) eqn:E; [|reflexivity].
  cbn [filter] in *. rewrite IH.
  destruct (same_class cmp k x) eqn:Kx; [|reflexivity].
  destruct (same_class cmp k y) eqn:Ky; [|reflexivity].
  apply same_class_spec in Kx as [Kx1 Kx2]. apply same_class_spec in Ky as [Ky1 Ky2].
  pose proof (trans x k y Kx2 Ky1) as F. unfold before_eq in F. congruence.
Qed.

Lemma js_sort_class (k : A) (l : list A) :
  filter (same_class cmp k) (js_sort cmp l) = filter (same_class cmp k) l.
Proof.
  induction l as [|x l IH]; [reflexivity|].
  cbn [js_sort fold_right]. fold (js_sort cmp l). rewrite insert_class.
  cbn [filter]. now rewrite IH.
Qed.

(** Two sorted arrangements with the same classes, each in the same
    order, are the same array. *)
Lemma sorted_classes_unique (l1 l2 : list A) :
  StronglySorted (before_eq cmp) l1 -> StronglySorted (before_eq cmp) l2 ->
  (forall k, filter (same_class cmp k) l1 = filter (same_class cmp k) l2) ->
  l1 = l2.
Proof.
  intros S1. revert l2. induction S1 as [|x l1 S1 IH Hx]; intros l2 S2 H.
  - destruct l2 as [|y l2]; [reflexivity|].
    specialize (H y). cbn [filter] in H. now rewrite same_class_refl in H.
  - destruct S2 as [|y l2 S2 Hy].
    + specialize (H x). cbn [filter] in H. now rewrite same_class_refl in H.
    + assert (Ixy : In x (y :: l2)).
      { pose proof (H x) as Hk. cbn [filter] in Hk. rewrite same_class_refl in Hk.
        assert (I : In x (filter (same_class cmp x) (y :: l2)))
          by (cbn [filter]; rewrite <- Hk; now left).
        now apply filter_In in I. }
      assert (Iyx : In y (x :: l1)).
      { pose proof (H y) as Hk. cbn [filter] in Hk. rewrite (same_class_refl y) in Hk.
        assert (I : In y (filter (same_class cmp y) (x :: l1)))
          by (cbn [filter]; rewrite Hk; now left).
        now apply filter_In in I. }
      assert (Lxy : before_eq cmp x y).
      { destruct Iyx as [<-|I]; [apply before_eq_refl|].
        rewrite Forall_forall in Hx. now apply Hx. }
      assert (Lyx : before_eq cmp y x).
      { destruct Ixy as [<-|I]; [apply before_eq_refl|].
        rewrite Forall_forall in Hy. now apply Hy. }
      assert (E : x = y).
      { pose proof (H x) as Hk. cbn [filter] in Hk. rewrite same_class_refl in Hk.
        replace (same_class cmp x y) with true in Hk
          by (symmetry; now apply same_class_spec).
        now injection Hk. }
      subst y. f_equal. apply IH; [exact S2|].
      intros k. specialize (H k). cbn [filter] in H.
      destruct (same_class cmp k x); [now injection H|exact H].
Qed.

End SortFacts.

(** The array a comparator sorts depends on the comparator only through
    the records of the array. *)
Lemma insert_ext {A : Type} (c1 c2 : A -> A -> Z) (x : A) (l : list A) :
  (forall y, In y l -> after c1 x y = after c2 x y) -> insert c1 x l = insert c2 x l.
Proof.
  induction l as [|y l IH]; intros H; [reflexivity|].
  simpl. fold (after c1 x y) (after c2 x y).
  rewrite (H y (or_introl eq_refl)), IH by (intros z Hz; apply H; now right).
  reflexivity.
Qed.

Lemma js_sort_ext {A : Type} (c1 c2 : A -> A -> Z) (l : list A) :
  (forall x y, In x l -> In y l -> after c1 x y = after c2 x y) ->
  js_sort c1 l = js_sort c2 l.
Proof.
  induction l as [|x l IH]; intros H; [reflexivity|].
  simpl. fold (js_sort c1 l) (js_sort c2 l).
  rewrite IH by (intros a b Ha Hb; apply H; now right).
  apply insert_ext. intros y Hy. apply H; [now left|].
  right. now apply (js_sort_in c2).
Qed.

(** ** Ranking *)

Section Ranking.
Import Js Report.

Lemma rank_step_ranked (st : RankLoop) (emp : RawRecord) (index : Z) :
  rank_step st emp index =
  let st1 := rank_step (mkRankLoop [] (lastScore st) (lastRank st)) emp index in
  mkRankLoop (ranked st ++ ranked st1) (lastScore st1) (lastRank st1).
Proof.
  unfold rank_step. cbn [lastScore lastRank ranked].
  destruct (match lastScore st with Some l => resolved_score emp =? l | None => false end);
    reflexivity.
Qed.

(** The loop pushes the records of [rank_walk] behind those it holds. *)
Lemma forEach_rank_walk (l : list RawRecord) (index : Z) (st : RankLoop) :
  ranked (forEach_from rank_step l index st) =
  (ranked st ++ rank_walk l index (lastScore st) (lastRank st))%list.
Proof.
  revert index st. induction l as [|emp l IH]; intros index st.
  - simpl. now rewrite app_nil_r.
  - cbn [forEach_from rank_walk]. rewrite IH, rank_step_ranked.
    cbn zeta. cbn [ranked lastScore lastRank]. now rewrite app_assoc.
Qed.

Lemma generateRankedData_walk (data : list RawRecord) :
  generateRankedData data = rank_walk (js_sort by_score_desc data) 0 None 0.
Proof. unfold generateRankedData. now rewrite forEach_rank_walk. Qed.

(** One step of the walk: the record pushed, and the state handed on. *)
Lemma rank_walk_cons (emp : RawRecord) (l : list RawRecord) (index : Z) (ls : option Z) (lr : Z) :
  let tied := match ls with Some s => resolved_score emp =? s | None => false end in
  let r := if tied then lr else fresh_rank emp index in
  rank_walk (emp :: l) index ls lr =
  mkRanked emp (resolved_score emp) r
    :: rank_walk l (index + 1) (Some (resolved_score emp)) r.
Proof.
  cbn zeta. cbn [rank_walk]. unfold rank_step. cbn [lastScore lastRank ranked].
  destruct ls as [s|]; [|reflexivity].
  destruct (Z.eqb_spec (resolved_score emp) s) as [->|]; reflexivity.
Qed.

Lemma rank_walk_emps (l : list RawRecord) (index : Z) (ls : option Z) (lr : Z) :
  map ranked_emp (rank_walk l index ls lr) = l.
Proof.
  revert index ls lr. induction l as [|emp l IH]; intros; [reflexivity|].
  rewrite rank_walk_cons. cbn [map ranked_emp]. now rewrite IH.
Qed.

Lemma rank_walk_scores (l : list RawRecord) (index : Z) (ls : option Z) (lr : Z) :
  Forall (fun r => ranked_score r = resolved_score (ranked_emp r)) (rank_walk l index ls lr).
Proof.
  revert index ls lr. induction l as [|emp l IH]; intros; [constructor|].
  rewrite rank_walk_cons. constructor; [reflexivity|apply IH].
Qed.

(** The rank of every record of the walk. *)
Lemma rank_walk_rank (l : list RawRecord) (index : Z) (ls : option Z) (lr : Z) (j : nat) (r : RankedRecord) :
  nth_error (rank_walk l index ls lr) j = Some r ->
  ranked_rank r =
  if tied_with (score_before (rank_walk l index ls lr) ls j) (ranked_score r)
  then rank_before (rank_walk l index ls lr) lr j
  else fresh_rank (ranked_emp r) (index + Z.of_nat j).
Proof.
  revert index ls lr j. induction l as [|emp l IH]; intros index ls lr j.
  - destruct j; discriminate.
  - rewrite rank_walk_cons. cbn zeta.
    set (r0 := if match ls with Some s => resolved_score emp =? s | None => false end
               then lr else fresh_rank emp index).
    destruct j as [|j]; intros H.
    + injection H as <-. cbn [score_before rank_before ranked_score ranked_rank ranked_emp].
      unfold tied_with, r0. rewrite Z.add_0_r. reflexivity.
    + cbn [nth_error] in H. rewrite (IH _ _ _ _ H).
      replace (index + 1 + Z.of_nat j) with (index + Z.of_nat (S j)) by lia.
      destruct j as [|j]; reflexivity.
Qed.

End Ranking.

Section RankingClaims.
Import Js Report.

Lemma by_score_desc_after (a b : RawRecord) :
  after by_score_desc a b = (resolved_score a <? resolved_score b).
Proof.
  unfold after, by_score_desc.
  destruct (Z.ltb_spec 0 (resolved_score b - resolved_score a)),
           (Z.ltb_spec (resolved_score a) (resolved_score b)); reflexivity || lia.
Qed.

Lemma StronglySorted_weaken {A : Type} (R S : A -> A -> Prop) (l : list A) :
  (forall x y, R x y -> S x y) -> StronglySorted R l -> StronglySorted S l.
Proof.
  intros H. induction 1 as [|x l Hs IH Hx]; constructor; [exact IH|].
  eapply Forall_impl; [|exact Hx]. intros y. apply H.
Qed.

(** The sort of [generateRankedData] puts the scores in descending order. *)
Lemma sorted_by_score (data : list RawRecord) :
  StronglySorted (fun a b => resolved_score a >= resolved_score b)
                 (js_sort by_score_desc data).
Proof.
  apply (StronglySorted_weaken (before_eq by_score_desc)).
  - intros x y. unfold before_eq. rewrite by_score_desc_after. intros H.
    apply Z.ltb_ge in H. lia.
  - apply js_sort_sorted.
    + intros x y. rewrite !by_score_desc_after. intros H.
      apply Z.ltb_lt in H. apply Z.ltb_ge. lia.
    + intros x y z. unfold before_eq. rewrite !by_score_desc_after. intros H1 H2.
      apply Z.ltb_ge in H1, H2. apply Z.ltb_ge. lia.
Qed.

Lemma ranked_emps (data : list RawRecord) :
  map ranked_emp (generateRankedData data) = js_sort by_score_desc data.
Proof. rewrite generateRankedData_walk. apply rank_walk_emps. Qed.

Lemma nth_error_before {A : Type} (l : list A) (i : nat) (x : A) :
  nth_error l (S i) = Some x -> exists p, nth_error l i = Some p.
Proof.
  intros H. destruct (nth_error l i) as [p|] eqn:E; [now exists p|].
  apply nth_error_None in E.
  assert (nth_error l (S i) <> None) by congruence.
  apply nth_error_Some in H0. lia.
Qed.

(** C1: without server ranks, the output holds the input records sorted by
    descending resolved score, each with its resolved score; the first
    record has rank 1, a record with the score of the record before it has
    that record's rank, and a record with a new score has its 1-based
    position as rank.  Scores 90, 90, 80, 70, 70 give ranks 1, 1, 3, 4, 4,
    whichever of [total_score] and [avg_score] carries them. *)
Theorem C1_ranking_without_server_rank :
  (forall data,
     Forall (fun emp => rank emp = None) data ->
     let out := generateRankedData data in
     Permutation (map ranked_emp out) data /\
     StronglySorted (fun a b => resolved_score a >= resolved_score b) (map ranked_emp out) /\
     Forall (fun r => ranked_score r = resolved_score (ranked_emp r)) out /\
     (forall r, nth_error out 0 = Some r -> ranked_rank r = 1) /\
     (forall i p r, nth_error out i = Some p -> nth_error out (S i) = Some r ->
        if ranked_score r =? ranked_score p
        then ranked_rank r = ranked_rank p
        else ranked_rank r = Z.of_nat (S i) + 1)) /\
  map ranked_rank (generateRankedData (map scored [90; 90; 80; 70; 70])) = [1; 1; 3; 4; 4] /\
  map ranked_rank
    (generateRankedData [averaged 70; scored 90; averaged 80; scored 70; averaged 90])
    = [1; 1; 3; 4; 4].
Proof.
  split; [|split; reflexivity].
  intros data Hno out.
  assert (Hrank : forall i r, nth_error out i = Some r -> rank (ranked_emp r) = None).
  { intros i r H. rewrite Forall_forall in Hno. apply Hno.
    apply (Permutation_in _ (js_sort_perm by_score_desc data)).
    rewrite <- ranked_emps. apply in_map. eapply nth_error_In, H. }
  split; [|split; [|split; [|split]]].
  - unfold out. rewrite ranked_emps. apply js_sort_perm.
  - unfold out. rewrite ranked_emps. apply sorted_by_score.
  - unfold out. rewrite generateRankedData_walk. apply rank_walk_scores.
  - intros r H. pose proof (Hrank _ _ H) as Hr.
    unfold out in H. rewrite generateRankedData_walk in H.
    rewrite (rank_walk_rank _ _ _ _ _ _ H). cbn [score_before tied_with].
    unfold fresh_rank. now rewrite Hr.
  - intros i p r Hp H. pose proof (Hrank _ _ H) as Hr.
    unfold out in H, Hp. rewrite generateRankedData_walk in H, Hp.
    rewrite (rank_walk_rank _ _ _ _ _ _ H). cbn [score_before rank_before].
    rewrite Hp. cbn [option_map tied_with].
    destruct (ranked_score r =? ranked_score p); [reflexivity|].
    unfold fresh_rank. rewrite Hr. lia.
Qed.

Lemma C1_ranking_without_server_rank_witness :
  let out := generateRankedData (map scored [70; 90; 90]) in
  Permutation (map ranked_emp out) (map scored [70; 90; 90]) /\
  map ranked_rank out = [1; 1; 3].
Proof.
  split; [|reflexivity].
  apply (proj1 C1_ranking_without_server_rank (map scored [70; 90; 90])).
  repeat constructor.
Defined.

(** C6: a record that is not tied with the record before it (the first
    record, or one whose score differs from its predecessor's) is output
    with the rank field the server supplied, whatever its position; its
    1-based position is its rank only when it has no such field. *)
Theorem C6_server_rank_verbatim :
  (forall data i r,
     nth_error (generateRankedData data) i = Some r ->
     (forall j p, i = S j -> nth_error (generateRankedData data) j = Some p ->
        ranked_score p <> ranked_score r) ->
     match rank (ranked_emp r) with
     | Some k => ranked_rank r = k
     | None => ranked_rank r = Z.of_nat i + 1
     end) /\
  map ranked_rank
    (generateRankedData [scored 80; scored_ranked 70 2; scored_ranked 90 7]) = [7; 2; 2].
Proof.
  split; [|reflexivity].
  intros data i r H Hnt. pose proof H as H'.
  rewrite generateRankedData_walk in H'. rewrite (rank_walk_rank _ _ _ _ _ _ H').
  rewrite <- generateRankedData_walk.
  assert (T : tied_with (score_before (generateRankedData data) None i) (ranked_score r) = false).
  { destruct i as [|j]; [reflexivity|].
    destruct (nth_error_before _ _ _ H) as [p Hp].
    cbn [score_before]. rewrite Hp. cbn [option_map tied_with].
    apply Z.eqb_neq. intros E. now apply (Hnt j p eq_refl Hp). }
  rewrite T. unfold fresh_rank. destruct (rank (ranked_emp r)); [reflexivity|lia].
Qed.

Lemma C6_server_rank_verbatim_witness :
  exists r,
    nth_error (generateRankedData [scored 80; scored_ranked 70 2; scored_ranked 90 7]) 0 = Some r /\
    ranked_emp r = scored_ranked 90 7 /\ ranked_rank r = 7.
Proof.
  eexists. split; [reflexivity|]. split; [reflexivity|].
  apply (proj1 C6_server_rank_verbatim
           [scored 80; scored_ranked 70 2; scored_ranked 90 7] 0%nat _ eq_refl).
  intros j p E. discriminate E.
Defined.

End RankingClaims.

(** ** Sorting by a column *)

Section ColumnOrder.
Import Js Performance.

Lemma ascii_compare_refl (a : ascii) : Ascii.compare a a = Eq.
Proof. unfold Ascii.compare. apply N.compare_refl. Qed.

Lemma ascii_compare_trans (a b c : ascii) :
  Ascii.compare a b = Lt -> Ascii.compare b c = Lt -> Ascii.compare a c = Lt.
Proof. unfold Ascii.compare. rewrite !N.compare_lt_iff. lia. Qed.

Lemma string_compare_trans (x y z : string) :
  String.compare x y = Lt -> String.compare y z = Lt -> String.compare x z = Lt.
Proof.
  revert y z. induction x as [|a x IH]; intros [|b y] [|c z]; simpl; try congruence.
  destruct (Ascii.compare a b) eqn:Eab; try discriminate;
    destruct (Ascii.compare b c) eqn:Ebc; try discriminate; intros H1 H2.
  - apply Ascii.compare_eq_iff in Eab, Ebc. subst. rewrite ascii_compare_refl. eauto.
  - apply Ascii.compare_eq_iff in Eab. subst. now rewrite Ebc.
  - apply Ascii.compare_eq_iff in Ebc. subst. now rewrite Eab.
  - now rewrite (ascii_compare_trans _ _ _ Eab Ebc).
Qed.

Lemma string_ltb_lt (x y : string) : String.ltb x y = true <-> String.compare x y = Lt.
Proof. unfold String.ltb. destruct (String.compare x y); split; congruence. Qed.

Lemma string_ltb_asym (x y : string) : String.ltb x y = true -> String.ltb y x = false.
Proof.
  rewrite string_ltb_lt. intros H. unfold String.ltb.
  now rewrite String.compare_antisym, H.
Qed.

Lemma string_ltb_negtrans (x y z : string) :
  String.ltb y x = false -> String.ltb z y = false -> String.ltb z x = false.
Proof.
  intros H1 H2. destruct (String.ltb z x) eqn:H; [|reflexivity].
  apply string_ltb_lt in H.
  destruct (String.compare z y) eqn:E.
  - apply String.compare_eq_iff in E. subst.
    apply string_ltb_lt in H. congruence.
  - apply string_ltb_lt in E. congruence.
  - assert (Eyz : String.compare y z = Lt) by (now rewrite String.compare_antisym, E).
    pose proof (string_compare_trans _ _ _ Eyz H) as F.
    apply string_ltb_lt in F. congruence.
Qed.

Lemma nkey_lt_asym (a b : NKey) : nkey_lt a b = true -> nkey_lt b a = false.
Proof.
  destruct a, b; simpl; try congruence.
  - intros H. apply Z.ltb_lt in H. apply Z.ltb_ge. lia.
  - apply string_ltb_asym.
Qed.

Lemma nkey_lt_negtrans (a b c : NKey) :
  nkey_lt b a = false -> nkey_lt c b = false -> nkey_lt c a = false.
Proof.
  destruct a, b, c; simpl; try congruence.
  - intros H1 H2. apply Z.ltb_ge in H1, H2. apply Z.ltb_ge. lia.
  - apply string_ltb_negtrans.
Qed.

(** [x] goes after [y] in ascending order when [y]'s key is below [x]'s,
    and in descending order when [x]'s key is below [y]'s. *)
Lemma after_keys (k : SortKey) (d : Direction) (x y : PerfRecord) :
  after (compare_keys k d) x y = if is_asc d then key_lt k y x else key_lt k x y.
Proof.
  unfold after, compare_keys.
  destruct (key_lt k x y) eqn:E.
  - unfold key_lt in *. rewrite (nkey_lt_asym _ _ E). now destruct d.
  - destruct (key_lt k y x), d; reflexivity.
Qed.

Lemma keys_total (k : SortKey) (d : Direction) (x y : PerfRecord) :
  after (compare_keys k d) x y = true -> after (compare_keys k d) y x = false.
Proof. rewrite !after_keys. destruct d; apply nkey_lt_asym. Qed.

Lemma keys_trans (k : SortKey) (d : Direction) (x y z : PerfRecord) :
  before_eq (compare_keys k d) x y -> before_eq (compare_keys k d) y z ->
  before_eq (compare_keys k d) x z.
Proof.
  unfold before_eq. rewrite !after_keys. destruct d; cbn [is_asc]; unfold key_lt; intros H1 H2.
  - exact (nkey_lt_negtrans _ _ _ H1 H2).
  - exact (nkey_lt_negtrans _ _ _ H2 H1).
Qed.

Lemma keys_class (k : SortKey) (d : Direction) (x y : PerfRecord) :
  same_class (compare_keys k d) x y = same_class (compare_keys k asc) x y.
Proof.
  unfold same_class. rewrite !after_keys. destruct d; cbn [is_asc]; [reflexivity|].
  apply andb_comm.
Qed.

(** Sorting an ascending list downwards and upwards again gives it back. *)
Lemma keys_down_up (k : SortKey) (l : list PerfRecord) :
  StronglySorted (before_eq (compare_keys k asc)) l ->
  js_sort (compare_keys k asc) (js_sort (compare_keys k desc) l) = l.
Proof.
  intros S.
  apply (sorted_classes_unique (compare_keys k asc) (keys_total k asc)).
  - apply js_sort_sorted; [apply keys_total|apply keys_trans].
  - exact S.
  - intros x.
    rewrite (js_sort_class _ (keys_trans k asc)).
    rewrite (filter_ext _ _ (fun y => eq_sym (keys_class k desc x y))).
    rewrite (js_sort_class _ (keys_trans k desc)).
    apply filter_ext. intros y. apply keys_class.
Qed.

(** On a comparable column the comparator of [handleSort] is the one on
    keys. *)
Lemma js_lt_keys (a b : Val) :
  is_str a && is_str b || is_num a && is_num b = true ->
  js_lt a b = nkey_lt (nkey a) (nkey b).
Proof. destruct a, b; simpl; congruence. Qed.

Lemma comparable_pair (k : SortKey) (l : list PerfRecord) (x y : PerfRecord) :
  comparable k l -> In x l -> In y l ->
  is_str (field k x) && is_str (field k y) || is_num (field k x) && is_num (field k y) = true.
Proof.
  intros [H|H] Hx Hy; rewrite Forall_forall in H;
    rewrite (H x Hx), (H y Hy); [reflexivity|apply orb_true_r].
Qed.

Lemma compare_by_keys (k : SortKey) (d : Direction) (l : list PerfRecord) (x y : PerfRecord) :
  comparable k l -> In x l -> In y l ->
  compare_by k d x y = compare_keys k d x y.
Proof.
  intros C Hx Hy. unfold compare_by, compare_keys, key_lt.
  rewrite (js_lt_keys _ _ (comparable_pair k l x y C Hx Hy)).
  now rewrite (js_lt_keys _ _ (comparable_pair k l y x C Hy Hx)).
Qed.

Lemma sort_by_keys (k : SortKey) (d : Direction) (l : list PerfRecord) :
  comparable k l -> js_sort (compare_by k d) l = js_sort (compare_keys k d) l.
Proof.
  intros C. apply js_sort_ext. intros x y Hx Hy. unfold after.
  now rewrite (compare_by_keys k d l x y C Hx Hy).
Qed.

Lemma comparable_perm (k : SortKey) (l l' : list PerfRecord) :
  Permutation l l' -> comparable k l -> comparable k l'.
Proof. intros P [H|H]; [left|right]; exact (Permutation_Forall P H). Qed.

End ColumnOrder.

Section SortToggle.
Import Js Performance.

Lemma StronglySorted_weaken_in {A : Type} (R S : A -> A -> Prop) (l : list A) :
  (forall x y, In x l -> In y l -> R x y -> S x y) ->
  StronglySorted R l -> StronglySorted S l.
Proof.
  intros H Hs. induction Hs as [|x l Hs IH Hx]; constructor.
  - apply IH. intros a b Ha Hb. apply H; now right.
  - rewrite Forall_forall in *. intros y Hy. apply H; [now left|now right|now apply Hx].
Qed.

Lemma sorted_keys_ascending (k : SortKey) (l : list PerfRecord) :
  comparable k l ->
  StronglySorted (before_eq (compare_keys k asc)) l <-> ascending k l.
Proof.
  intros C. unfold ascending.
  split; apply StronglySorted_weaken_in; intros x y Hx Hy; unfold before_eq;
    rewrite after_keys; cbn [is_asc]; unfold key_lt;
    now rewrite (js_lt_keys _ _ (comparable_pair k l y x C Hy Hx)).
Qed.

Lemma sorted_keys_descending (k : SortKey) (l : list PerfRecord) :
  comparable k l ->
  StronglySorted (before_eq (compare_keys k desc)) l <-> descending k l.
Proof.
  intros C. unfold descending.
  split; apply StronglySorted_weaken_in; intros x y Hx Hy; unfold before_eq;
    rewrite after_keys; cbn [is_asc]; unfold key_lt;
    now rewrite (js_lt_keys _ _ (comparable_pair k l x y C Hx Hy)).
Qed.

Lemma SortKey_eqb_spec (a b : SortKey) : reflect (a = b) (SortKey_eqb a b).
Proof. destruct a, b; constructor; congruence. Qed.

Lemma next_direction_same (c : SortConfig) (k : SortKey) :
  key c = Some k -> next_direction c k = flip (direction c).
Proof.
  intros E. unfold next_direction. rewrite E.
  destruct (SortKey_eqb_spec k k); [|congruence]. now destruct (direction c).
Qed.

Lemma next_direction_new (c : SortConfig) (k : SortKey) :
  key c <> Some k -> next_direction c k = asc.
Proof.
  intros E. unfold next_direction. destruct (key c) as [k'|]; [|reflexivity].
  destruct (SortKey_eqb_spec k' k); [congruence|reflexivity].
Qed.

Lemma handleSort_employees (k : SortKey) (st : State) :
  employees (handleSort k st) =
  js_sort (compare_by k (next_direction (sortConfig st) k)) (employees st).
Proof. reflexivity. Qed.

Lemma handleSort_config (k : SortKey) (st : State) :
  sortConfig (handleSort k st) = mkSortConfig (Some k) (next_direction (sortConfig st) k).
Proof. reflexivity. Qed.

Lemma nkey_lt_irrefl (a : NKey) : nkey_lt a a = false.
Proof.
  destruct (nkey_lt a a) eqn:E; [|reflexivity]. now rewrite (nkey_lt_asym _ _ E) in E.
Qed.

Lemma nkey_lt_eq (a b : NKey) : nkey_lt a b = false -> nkey_lt b a = false -> a = b.
Proof.
  destruct a as [x|x], b as [y|y]; simpl; try discriminate.
  - intros H1 H2. apply Z.ltb_ge in H1, H2. f_equal. lia.
  - unfold String.ltb. rewrite (String.compare_antisym y x).
    destruct (String.compare x y) eqn:E; try discriminate.
    intros _ _. f_equal. now apply String.compare_eq_iff.
Qed.

Lemma Val_eqb_spec (a b : Val) : reflect (a = b) (Val_eqb a b).
Proof.
  destruct a as [|x|x], b as [|y|y]; simpl; try (constructor; congruence).
  - destruct (Z.eqb_spec x y); constructor; congruence.
  - destruct (String.eqb_spec x y); constructor; congruence.
Qed.

Lemma nkey_inj (a b : Val) :
  is_str a && is_str b || is_num a && is_num b = true -> nkey a = nkey b -> a = b.
Proof. destruct a, b; simpl; congruence. Qed.

(** On a comparable column two records are of one class of the comparator
    exactly when they have the same value. *)
Lemma class_is_value (k : SortKey) (d : Direction) (l : list PerfRecord) (x e : PerfRecord) :
  comparable k l -> In x l -> In e l ->
  same_class (compare_keys k d) x e = Val_eqb (field k e) (field k x).
Proof.
  intros C Hx He. rewrite keys_class. unfold same_class. rewrite !after_keys.
  cbn [is_asc]. unfold key_lt.
  destruct (Val_eqb_spec (field k e) (field k x)) as [E|E].
  - rewrite E. now rewrite nkey_lt_irrefl.
  - destruct (nkey_lt (nkey (field k e)) (nkey (field k x))) eqn:L1; [reflexivity|].
    destruct (nkey_lt (nkey (field k x)) (nkey (field k e))) eqn:L2; [reflexivity|].
    exfalso. apply E. apply nkey_inj; [exact (comparable_pair k l e x C He Hx)|].
    now apply nkey_lt_eq.
Qed.

Lemma filter_none {A : Type} (f : A -> bool) (l : list A) :
  (forall x, In x l -> f x = false) -> filter f l = [].
Proof.
  induction l as [|x l IH]; intros H; [reflexivity|].
  simpl. rewrite (H x (or_introl eq_refl)). apply IH. intros y Hy. apply H. now right.
Qed.

(** One click keeps the records of one value in the order they had. *)
Lemma handleSort_stable (k : SortKey) (st : State) (v : Val) :
  comparable k (employees st) ->
  filter (fun e => Val_eqb (field k e) v) (employees (handleSort k st)) =
  filter (fun e => Val_eqb (field k e) v) (employees st).
Proof.
  intros C. rewrite handleSort_employees, (sort_by_keys k _ _ C).
  set (d := next_direction (sortConfig st) k). set (l := employees st) in *.
  destruct (existsb (fun e => Val_eqb (field k e) v) l) eqn:Ex.
  - apply existsb_exists in Ex as (x & Hx & Ev).
    destruct (Val_eqb_spec (field k x) v) as [<-|]; [|discriminate Ev].
    rewrite (filter_ext_in _ (same_class (compare_keys k d) x)).
    + rewrite (js_sort_class _ (keys_trans k d)).
      apply filter_ext_in. intros e He. now apply (class_is_value k d l).
    + intros e He. apply js_sort_in in He. symmetry. now apply (class_is_value k d l).
  - assert (N : forall e, In e l -> Val_eqb (field k e) v = false).
    { intros e He. destruct (Val_eqb (field k e) v) eqn:E; [|reflexivity].
      assert (X : existsb (fun e => Val_eqb (field k e) v) l = true)
        by (apply existsb_exists; now exists e).
      congruence. }
    rewrite (filter_none _ l N). apply filter_none.
    intros e He. apply N. now apply js_sort_in in He.
Qed.

(** One click sorts the page in the direction it sets. *)
Lemma handleSort_sorted (k : SortKey) (st : State) :
  comparable k (employees st) ->
  Permutation (employees (handleSort k st)) (employees st) /\
  (direction (sortConfig (handleSort k st)) = asc -> ascending k (employees (handleSort k st))) /\
  (direction (sortConfig (handleSort k st)) = desc -> descending k (employees (handleSort k st))).
Proof.
  intros C. rewrite handleSort_employees, handleSort_config. cbn [direction].
  pose proof (js_sort_perm (compare_by k (next_direction (sortConfig st) k)) (employees st)) as P.
  split; [exact P|].
  pose proof (comparable_perm k _ _ (Permutation_sym P) C) as C'.
  split; intros E; rewrite E in *.
  - apply (sorted_keys_ascending k _ C'). rewrite (sort_by_keys k asc _ C).
    apply js_sort_sorted; [apply keys_total|apply keys_trans].
  - apply (sorted_keys_descending k _ C'). rewrite (sort_by_keys k desc _ C).
    apply js_sort_sorted; [apply keys_total|apply keys_trans].
Qed.

Lemma state_ext (s t : State) :
  week s = week t -> employees s = employees t -> sortConfig s = sortConfig t ->
  searchQuery s = searchQuery t -> loading s = loading t -> page s = page t ->
  totalPages s = totalPages t -> s = t.
Proof. destruct s, t; simpl; intros; subst; reflexivity. Qed.

(** Two clicks on the header of the column the page is sorted by, in
    ascending order, give the page back. *)
Lemma handleSort_twice (k : SortKey) (st : State) :
  comparable k (employees st) ->
  sortConfig st = mkSortConfig (Some k) asc ->
  ascending k (employees st) ->
  handleSort k (handleSort k st) = st.
Proof.
  intros C E S.
  assert (D1 : next_direction (sortConfig st) k = desc)
    by (rewrite next_direction_same; rewrite E; reflexivity).
  assert (D2 : next_direction (sortConfig (handleSort k st)) k = asc)
    by (rewrite next_direction_same; rewrite handleSort_config, D1; reflexivity).
  assert (L : employees (handleSort k (handleSort k st)) = employees st).
  { rewrite handleSort_employees, D2, handleSort_employees, D1.
    rewrite (sort_by_keys k desc _ C).
    rewrite sort_by_keys
      by (apply (comparable_perm k (employees st));
          [symmetry; apply js_sort_perm|exact C]).
    apply keys_down_up. now apply sorted_keys_ascending. }
  assert (F : sortConfig (handleSort k (handleSort k st)) = sortConfig st)
    by (rewrite handleSort_config, D2; now rewrite E).
  apply state_ext; try reflexivity; assumption.
Qed.

End SortToggle.

Section SortClaims.
Import Js Performance.

(** C8, counterexample: a page the server sent in ascending order of score
    is, after two clicks on the score header from the initial sort state,
    in descending order: it is neither ascending nor the server order. *)
Lemma C8_two_clicks_leave_descending :
  ascending K_total_score (employees ascending_page) /\
  employees (handleSort K_total_score (handleSort K_total_score ascending_page))
    = rev (employees ascending_page) /\
  employees (handleSort K_total_score (handleSort K_total_score ascending_page))
    <> employees ascending_page /\
  direction (sortConfig (handleSort K_total_score (handleSort K_total_score ascending_page)))
    = desc.
Proof.
  split; [|split; [reflexivity|split; [discriminate|reflexivity]]].
  repeat constructor.
Qed.

(** C8, as amended: a click on the header of the current sort key flips
    the direction, a click on another header sets it to ascending.  On a
    column where every record has a value and the values are all strings
    or all numbers, a click sorts the page in the direction it sets: the
    same records, in ascending or descending order of the column, those
    of one value in the order they had (the sort is stable); and when the
    page is in ascending order of the current sort key, two clicks on that
    header return the very same page, duplicate keys included.  So from
    any state the third click on a new header gives back the page of the
    first click. *)
Theorem C8_sort_toggle :
  (forall k st, key (sortConfig st) = Some k ->
     sortConfig (handleSort k st) = mkSortConfig (Some k) (flip (direction (sortConfig st)))) /\
  (forall k st, key (sortConfig st) <> Some k ->
     sortConfig (handleSort k st) = mkSortConfig (Some k) asc) /\
  (forall k st, comparable k (employees st) ->
     Permutation (employees (handleSort k st)) (employees st) /\
     (forall v, filter (fun e => Val_eqb (field k e) v) (employees (handleSort k st))
                = filter (fun e => Val_eqb (field k e) v) (employees st)) /\
     (direction (sortConfig (handleSort k st)) = asc ->
        ascending k (employees (handleSort k st))) /\
     (direction (sortConfig (handleSort k st)) = desc ->
        descending k (employees (handleSort k st)))) /\
  (forall k st, comparable k (employees st) ->
     sortConfig st = mkSortConfig (Some k) asc -> ascending k (employees st) ->
     handleSort k (handleSort k st) = st) /\
  (forall k st, comparable k (employees st) -> key (sortConfig st) <> Some k ->
     handleSort k (handleSort k (handleSort k st)) = handleSort k st).
Proof.
  split; [|split; [|split; [|split]]].
  - intros k st E. now rewrite handleSort_config, next_direction_same.
  - intros k st E. now rewrite handleSort_config, next_direction_new.
  - intros k st C. destruct (handleSort_sorted k st C) as (P & Sa & Sd).
    split; [exact P|]. split; [|now split].
    intros v. now apply handleSort_stable.
  - intros k st C E S. now apply handleSort_twice.
  - intros k st C E.
    destruct (handleSort_sorted k st C) as (P & Sa & _).
    assert (F : sortConfig (handleSort k st) = mkSortConfig (Some k) asc)
      by (now rewrite handleSort_config, next_direction_new).
    apply handleSort_twice.
    + exact (comparable_perm k _ _ (Permutation_sym P) C).
    + exact F.
    + apply Sa. now rewrite F.
Qed.

Lemma C8_sort_toggle_witness :
  employees (handleSort K_total_score server_page) = [row_E3; row_E2; row_E1] /\
  handleSort K_total_score (handleSort K_total_score (handleSort K_total_score server_page))
    = handleSort K_total_score server_page.
Proof.
  split; [reflexivity|].
  apply (proj2 (proj2 (proj2 (proj2 C8_sort_toggle))) K_total_score server_page).
  - right. repeat constructor.
  - discriminate.
Defined.

End SortClaims.

(** * Further properties *)

(** ** Decimal texts *)

Section Decimal.
Import Js.

Lemma parse_uint_acc (d : Decimal.uint) (acc : positive) (rest : string) :
  parse_digits 10 (NilEmpty.string_of_uint d ++ rest) (Some (Z.pos acc)) =
  parse_digits 10 rest (Some (Z.pos (Pos.of_uint_acc d acc))).
Proof.
  revert acc. induction d; intros acc; cbn [NilEmpty.string_of_uint append Pos.of_uint_acc];
    [reflexivity|..];
    cbn [parse_digits]; change (digit_value _) with (Some 0) || idtac.
  all: try (match goal with |- context [digit_value ?c] =>
              let v := eval vm_compute in (digit_value c) in change (digit_value c) with v end).
  all: cbv iota beta; match goal with |- context [?k <? 10] =>
              change (k <? 10) with true end; cbv iota.
  all: rewrite <- IHd; f_equal; f_equal; lia.
Qed.

Lemma parse_uint_zero (d : Decimal.uint) (rest : string) :
  parse_digits 10 (NilEmpty.string_of_uint d ++ rest) (Some 0) =
  parse_digits 10 rest (Some (Z.of_N (Pos.of_uint d))).
Proof.
  induction d; cbn [NilEmpty.string_of_uint append Pos.of_uint]; [reflexivity|..];
    cbn [parse_digits].
  all: match goal with |- context [digit_value ?c] =>
         let v := eval vm_compute in (digit_value c) in change (digit_value c) with v end.
  all: cbv iota beta; match goal with |- context [?k <? 10] =>
         change (k <? 10) with true end; cbv iota.
  all: try (rewrite <- IHd; reflexivity).
  all: match goal with |- context [Some (0 * 10 + ?k)] =>
         change (0 * 10 + k) with k end.
  all: rewrite parse_uint_acc; reflexivity.
Qed.

Lemma parse_uint_start (d : Decimal.uint) (rest : string) :
  d <> Decimal.Nil ->
  parse_digits 10 (NilEmpty.string_of_uint d ++ rest) None =
  parse_digits 10 rest (Some (Z.of_N (Pos.of_uint d))).
Proof.
  intros Hd. destruct d; [congruence|..];
    cbn [NilEmpty.string_of_uint append Pos.of_uint parse_digits].
  all: match goal with |- context [digit_value ?c] =>
         let v := eval vm_compute in (digit_value c) in change (digit_value c) with v end.
  all: cbv iota beta; match goal with |- context [?k <? 10] =>
         change (k <? 10) with true end; cbv iota.
  - apply parse_uint_zero.
  - apply parse_uint_acc.
  - apply parse_uint_acc.
  - apply parse_uint_acc.
  - apply parse_uint_acc.
  - apply parse_uint_acc.
  - apply parse_uint_acc.
  - apply parse_uint_acc.
  - apply parse_uint_acc.
  - apply parse_uint_acc.
Qed.

Lemma string_of_Z_pos (p : positive) :
  string_of_Z (Z.pos p) = NilEmpty.string_of_uint (Pos.to_uint p).
Proof.
  unfold string_of_Z, NilZero.string_of_int. cbn [Z.to_int].
  unfold NilZero.string_of_uint.
  pose proof (Unsigned.to_uint_nonnil p) as H.
  destruct (Pos.to_uint p); congruence.
Qed.

(** Reading the decimal text of a natural number gives the number back. *)
Lemma parse_string_of_Z (z : Z) (rest : string) :
  0 <= z ->
  parse_digits 10 (string_of_Z z ++ rest) None = parse_digits 10 rest (Some z) /\
  parse_digits 10 (string_of_Z z ++ rest) (Some 0) = parse_digits 10 rest (Some z).
Proof.
  intros Hz. destruct z as [|p|p]; [split; reflexivity| |lia].
  rewrite string_of_Z_pos.
  rewrite parse_uint_start by apply Unsigned.to_uint_nonnil.
  rewrite parse_uint_zero, Unsigned.of_to. split; reflexivity.
Qed.

Lemma digit_char (c : ascii) :
  is_digit c = true ->
  is_white_space c = false /\ Ascii.eqb c "-" = false /\ Ascii.eqb c "+" = false /\
  Ascii.eqb c "x" = false /\ Ascii.eqb c "X" = false /\ Ascii.eqb c "0" = (nat_of_ascii c =? 48)%nat.
Proof.
  destruct c as [[] [] [] [] [] [] [] []]; vm_compute; intros H; try discriminate H;
    repeat split.
Qed.

Lemma not_digit_stops (c : ascii) (t : string) (acc : option Z) :
  is_digit c = false -> parse_digits 10 (String c t) acc = acc.
Proof.
  intros H. cbn [parse_digits].
  destruct c as [[] [] [] [] [] [] [] []]; try discriminate H; reflexivity.
Qed.

Lemma number_end_stops (rest : string) (acc : option Z) :
  number_end rest = true -> parse_digits 10 rest acc = acc.
Proof.
  destruct rest as [|c t]; [reflexivity|]. cbn [number_end]. intros H.
  apply andb_true_iff in H as [H _]. apply andb_true_iff in H as [H _].
  apply not_digit_stops. now apply negb_true_iff.
Qed.

Lemma digits_uint (d : Decimal.uint) : all_chars is_digit (NilEmpty.string_of_uint d) = true.
Proof. induction d; simpl; now rewrite ?IHd. Qed.

(** The decimal text of a natural number: a digit, then digits. *)
Lemma string_of_Z_digits (z : Z) :
  0 <= z -> exists c t, string_of_Z z = String c t /\ is_digit c = true /\ all_chars is_digit t = true.
Proof.
  intros Hz. destruct z as [|p|p]; [now exists "0"%char, ""| |lia].
  rewrite string_of_Z_pos. pose proof (digits_uint (Pos.to_uint p)) as H.
  pose proof (Unsigned.to_uint_nonnil p) as Hn.
  destruct (NilEmpty.string_of_uint (Pos.to_uint p)) as [|c t] eqn:E.
  - destruct (Pos.to_uint p); try discriminate E. congruence.
  - simpl in H. apply andb_true_iff in H as [Hc Ht]. now exists c, t.
Qed.

(** [parseInt] without sign, white space or [0x] in front: the digits. *)
Lemma parseInt_digits (c : ascii) (t : string) :
  is_digit c = true ->
  (match t with String x _ => Ascii.eqb x "x" || Ascii.eqb x "X" | EmptyString => false end) = false ->
  parseInt (String c t) =
  match parse_digits 10 (String c t) None with Some m => Num m | None => NaN end.
Proof.
  intros Hc Hx. destruct (digit_char c Hc) as (Hw & Hm & Hp & _).
  unfold parseInt. cbn [trimStart]. rewrite Hw. cbn [strip_sign]. rewrite Hm, Hp.
  assert (E : strip_hex (String c t) = (10, String c t)).
  { destruct t as [|x t]; [reflexivity|]. cbn [strip_hex]. rewrite Hx.
    now rewrite andb_false_r. }
  rewrite E. destruct (parse_digits 10 (String c t) None) as [m|]; [|reflexivity].
  f_equal. lia.
Qed.

Lemma second_not_x (t rest : string) :
  all_chars is_digit t = true -> number_end rest = true ->
  (match (t ++ rest)%string with
   | String x _ => Ascii.eqb x "x" || Ascii.eqb x "X"
   | EmptyString => false
   end) = false.
Proof.
  intros Ht Hr. destruct t as [|x t]; simpl.
  - destruct rest as [|x r]; [reflexivity|]. cbn [number_end] in Hr.
    apply andb_true_iff in Hr as [Hr H2]. apply andb_true_iff in Hr as [_ H1].
    apply negb_true_iff in H1, H2. now rewrite H1, H2.
  - simpl in Ht. apply andb_true_iff in Ht as [Hx _].
    destruct (digit_char x Hx) as (_ & _ & _ & H1 & H2 & _). now rewrite H1, H2.
Qed.

(** [parseInt] reads the decimal text of a natural number back, whatever
    follows it, unless a digit or an [x] follows. *)
Lemma parseInt_string_of_Z (z : Z) (rest : string) :
  0 <= z -> number_end rest = true -> parseInt (string_of_Z z ++ rest) = Num z.
Proof.
  intros Hz Hr. destruct (string_of_Z_digits z Hz) as (c & t & E & Hc & Ht).
  pose proof (proj1 (parse_string_of_Z z rest Hz)) as P. rewrite E in *.
  change (String c t ++ rest) with (String c (t ++ rest)) in *.
  rewrite parseInt_digits, P, number_end_stops; auto using second_not_x.
Qed.

Lemma padStart0_digits (z : Z) :
  0 <= z ->
  padStart0 2 (string_of_Z z) = string_of_Z z \/
  padStart0 2 (string_of_Z z) = "0" ++ string_of_Z z.
Proof.
  intros Hz. destruct (string_of_Z_digits z Hz) as (c & t & E & _). rewrite E.
  destruct t as [|d t]; [now right|now left].
Qed.

(** The same with the text padded to two digits. *)
Lemma parseInt_padded (z : Z) (rest : string) :
  0 <= z -> number_end rest = true ->
  parseInt (padStart0 2 (string_of_Z z) ++ rest) = Num z.
Proof.
  intros Hz Hr. destruct (padStart0_digits z Hz) as [->| ->].
  - now apply parseInt_string_of_Z.
  - destruct (string_of_Z_digits z Hz) as (c & t & E & Hc & Ht).
    pose proof (proj2 (parse_string_of_Z z rest Hz)) as P. rewrite E in *.
    change (("0" ++ String c t) ++ rest) with (String "0" (String c (t ++ rest))).
    change (String c t ++ rest) with (String c (t ++ rest)) in P.
    rewrite parseInt_digits.
    + change (parse_digits 10 (String "0" (String c (t ++ rest))) None)
        with (parse_digits 10 (String c (t ++ rest)) (Some 0)).
      now rewrite P, number_end_stops.
    + reflexivity.
    + destruct (digit_char c Hc) as (_ & _ & _ & H1 & H2 & _). now rewrite H1, H2.
Qed.

End Decimal.

(** ** Week strings *)

Section WeekStrings.
Import Js Report Performance.

Lemma append_nil_r (s : string) : s ++ "" = s.
Proof. induction s as [|c s IH]; simpl; [reflexivity|]. now rewrite IH. Qed.

Lemma digits_no_marker (s : string) :
  all_chars is_digit s = true -> includes "-W" s = false.
Proof.
  induction s as [|c s IH]; intros H; [reflexivity|].
  simpl in H. apply andb_true_iff in H as [Hc Hs].
  rewrite includes_cons, (IH Hs), orb_false_r.
  destruct (String.prefix "-W" (String c s)) eqn:P; [|reflexivity].
  apply prefix_dashW in P as [post P]. injection P as -> _. discriminate Hc.
Qed.

Lemma string_of_Z_no_marker (z : Z) : 0 <= z -> includes "-W" (string_of_Z z) = false.
Proof.
  intros Hz. destruct (string_of_Z_digits z Hz) as (c & t & -> & Hc & Ht).
  apply digits_no_marker. simpl. now rewrite Hc, Ht.
Qed.

(** X1: the week parser reads back the year and the week of a week string
    built as [fetchLatestWeek] builds it, the week padded to two digits,
    for a year and a week from 0 to [Number.MAX_SAFE_INTEGER]. *)
Theorem X1_parseWeek_reads_week_string (y w : Z) :
  0 <= y <= MAX_SAFE_INTEGER -> 0 <= w <= MAX_SAFE_INTEGER ->
  parseWeek (Some (week_string y (Num w))) = mkWeekParts (Some (Num y)) (Some (Num w)).
Proof.
  intros [Hy _] [Hw _]. unfold week_string. cbn [toString].
  rewrite (parseWeek_marker _ _ (string_of_Z_no_marker y Hy)).
  rewrite <- (append_nil_r (string_of_Z y)) at 1.
  rewrite <- (append_nil_r (padStart0 2 (string_of_Z w))).
  now rewrite parseInt_string_of_Z, parseInt_padded.
Qed.

Lemma X1_parseWeek_reads_week_string_witness :
  parseWeek (Some (week_string 2025 (Num 7))) = mkWeekParts (Some (Num 2025)) (Some (Num 7)).
Proof. apply X1_parseWeek_reads_week_string; unfold MAX_SAFE_INTEGER; lia. Defined.




Lemma parse_all_digits (s : string) :
  all_chars is_digit s = true ->
  forall acc, parse_all 10 s acc = parse_digits 10 s acc.
Proof.
  induction s as [|c s IH]; intros H acc; [reflexivity|].
  simpl in H. apply andb_true_iff in H as [Hc Hs].
  cbn [parse_all parse_digits].
  destruct c as [[] [] [] [] [] [] [] []]; try discriminate Hc.
  all: match goal with |- context [digit_value ?c] =>
         let v := eval vm_compute in (digit_value c) in change (digit_value c) with v end.
  all: cbv iota beta; match goal with |- context [?k <? 10] =>
         change (k <? 10) with true end; cbv iota.
  all: now apply IH.
Qed.

(** [Number] reads the decimal text of a natural number back. *)
Lemma Number_string_of_Z (z : Z) : 0 <= z -> Number (string_of_Z z) = Num z.
Proof.
  intros Hz. destruct (string_of_Z_digits z Hz) as (c & t & E & Hc & Ht).
  pose proof (proj1 (parse_string_of_Z z "" Hz)) as P.
  rewrite append_nil_r in P. cbn [parse_digits] in P. rewrite E in *.
  destruct (digit_char c Hc) as (Hw & Hm & Hp & _).
  unfold Number. cbn [trimStart]. rewrite Hw.
  assert (X : strip_hex (String c t) = (10, String c t)).
  { destruct t as [|x t]; [reflexivity|]. cbn [strip_hex].
    simpl in Ht. apply andb_true_iff in Ht as [Hx _].
    destruct (digit_char x Hx) as (_ & _ & _ & H1 & H2 & _).
    now rewrite H1, H2, andb_false_r. }
  rewrite X. cbn [strip_sign]. rewrite Hm, Hp.
  rewrite parse_all_digits by (simpl; now rewrite Hc, Ht).
  rewrite P. f_equal. lia.
Qed.

(** X3: on every day of a year [y] of four digits, the week the function
    reads from the date is [y] itself, whatever the month and the day: the
    range runs from week [y - 1] to week [y] of year [y], and never holds
    a week of the year before. *)
Theorem X3_getAllowedWeeks_week_is_year (y m d : Z) :
  1000 <= y <= 9999 ->
  getAllowedWeeks (date_of y m d) =
  mkWeekRange (week_string y (Num (y - 1))) (week_string y (Num y)).
Proof.
  intros Hy. unfold getAllowedWeeks.
  change (toLocaleDateString (date_of y m d) "en-GB" [("week", "numeric"); ("year", "numeric")])
    with (string_of_Z y).
  rewrite Number_string_of_Z by lia. cbn [sub strict_eq_lit getFullYear date_of].
  destruct (Z.eqb_spec (y - 1) 0); [lia|reflexivity].
Qed.

Lemma X3_getAllowedWeeks_week_is_year_witness :
  getAllowedWeeks (date_of 2026 1 1) = mkWeekRange "2026-W2025" "2026-W2026".
Proof. apply (X3_getAllowedWeeks_week_is_year 2026 1 1). lia. Defined.

End WeekStrings.

(** ** More on the ranking *)

Section RankingOrder.
Import Js Report.

Lemma by_score_desc_trans (x y z : RawRecord) :
  before_eq by_score_desc x y -> before_eq by_score_desc y z -> before_eq by_score_desc x z.
Proof.
  unfold before_eq. rewrite !by_score_desc_after. intros H1 H2.
  apply Z.ltb_ge in H1, H2. apply Z.ltb_ge. lia.
Qed.

Lemma same_score_class (s : Z) (x : RawRecord) :
  same_class by_score_desc (scored s) x = (resolved_score x =? s).
Proof.
  unfold same_class. rewrite !by_score_desc_after.
  change (resolved_score (scored s)) with s.
  destruct (Z.ltb_spec s (resolved_score x)), (Z.ltb_spec (resolved_score x) s),
    (Z.eqb_spec (resolved_score x) s); simpl; reflexivity || lia.
Qed.

(** X4: whatever ranks the server sent, the output holds every input
    record once, in descending order of score, and the records of one
    score in the order of the input: the sort is stable. *)
Theorem X4_ranking_keeps_input_order_of_ties (data : list RawRecord) :
  let out := map ranked_emp (generateRankedData data) in
  Permutation out data /\
  StronglySorted (fun a b => resolved_score a >= resolved_score b) out /\
  forall s, filter (fun e => resolved_score e =? s) out
            = filter (fun e => resolved_score e =? s) data.
Proof.
  cbn zeta. rewrite ranked_emps. split; [apply js_sort_perm|]. split; [apply sorted_by_score|].
  intros s.
  rewrite <- (filter_ext _ _ (same_score_class s)).
  rewrite <- (filter_ext _ _ (same_score_class s)).
  apply js_sort_class. exact by_score_desc_trans.
Qed.

Lemma rank_walk_in (l : list RawRecord) (index : Z) (ls : option Z) (lr : Z) (r : RankedRecord) :
  In r (rank_walk l index ls lr) ->
  In (ranked_emp r) l /\ ranked_score r = resolved_score (ranked_emp r).
Proof.
  intros H. split.
  - rewrite <- (rank_walk_emps l index ls lr). now apply in_map.
  - pose proof (rank_walk_scores l index ls lr) as F. rewrite Forall_forall in F. now apply F.
Qed.

Lemma count_above_none (s : Z) (l : list RawRecord) :
  Forall (fun e => resolved_score e <= s) l -> count_above s l = 0.
Proof.
  unfold count_above. induction 1 as [|e l He _ IH]; [reflexivity|].
  simpl. destruct (Z.ltb_spec s (resolved_score e)); [lia|exact IH].
Qed.

Lemma count_above_cons (s : Z) (e : RawRecord) (l : list RawRecord) :
  count_above s (e :: l) = (if s <? resolved_score e then 1 else 0) + count_above s l.
Proof.
  unfold count_above. simpl. destruct (s <? resolved_score e); simpl List.length; lia.
Qed.

Lemma count_above_perm (s : Z) (l l' : list RawRecord) :
  Permutation l l' -> count_above s l = count_above s l'.
Proof.
  induction 1 as [|x l l' _ IH|x y l|l l' l'' _ IH1 _ IH2].
  - reflexivity.
  - rewrite !count_above_cons. lia.
  - rewrite !count_above_cons. lia.
  - congruence.
Qed.

Lemma sorted_tail_below (e : RawRecord) (l : list RawRecord) :
  StronglySorted (fun a b => resolved_score a >= resolved_score b) (e :: l) ->
  Forall (fun x => resolved_score x <= resolved_score e) l.
Proof.
  intros H. inversion H as [|? ? _ F]; subst.
  eapply Forall_impl; [|exact F]. intros x Hx. simpl in Hx. lia.
Qed.

(** The rank of every record of a walk over a sorted list without server
    ranks, started after [index] records that all have a higher score than
    any record that does not tie with the last of them. *)
Lemma rank_walk_competition (l : list RawRecord) :
  StronglySorted (fun a b => resolved_score a >= resolved_score b) l ->
  Forall (fun e => rank e = None) l ->
  forall index ls lr,
    match ls with Some s => Forall (fun e => resolved_score e <= s) l | None => True end ->
    Forall (fun r => ranked_rank r =
                     if tied_with ls (ranked_score r) then lr
                     else 1 + index + count_above (ranked_score r) l)
           (rank_walk l index ls lr).
Proof.
  induction l as [|emp l IH]; intros S N index ls lr B; [constructor|].
  rewrite rank_walk_cons. cbn zeta.
  pose proof (sorted_tail_below emp l S) as T.
  inversion S as [|? ? S' _]; subst. inversion N as [|? ? Nemp N']; subst.
  fold (tied_with ls (resolved_score emp)).
  set (r0 := if tied_with ls (resolved_score emp) then lr else fresh_rank emp index).
  assert (C0 : count_above (resolved_score emp) (emp :: l) = 0)
    by (apply count_above_none; constructor; [lia|exact T]).
  constructor.
  - cbn [ranked_rank ranked_score]. unfold r0.
    destruct (tied_with ls (resolved_score emp)); [reflexivity|].
    unfold fresh_rank. rewrite Nemp, C0. lia.
  - specialize (IH S' N' (index + 1) (Some (resolved_score emp)) r0 T).
    rewrite Forall_forall in *. intros r Hr. rewrite (IH r Hr).
    destruct (rank_walk_in _ _ _ _ _ Hr) as [Hin Hs].
    specialize (T _ Hin). cbn [tied_with].
    destruct (Z.eqb_spec (ranked_score r) (resolved_score emp)) as [E|E].
    + rewrite E. unfold r0. destruct (tied_with ls (resolved_score emp)); [reflexivity|].
      unfold fresh_rank. rewrite Nemp, C0. lia.
    + assert (L : ranked_score r < resolved_score emp) by lia.
      assert (F : tied_with ls (ranked_score r) = false).
      { destruct ls as [s|]; [|reflexivity]. cbn [tied_with].
        inversion B as [|? ? Bemp _]; subst. apply Z.eqb_neq. lia. }
      rewrite F, count_above_cons.
      destruct (Z.ltb_spec (ranked_score r) (resolved_score emp)); lia.
Qed.

(** X5: without server ranks, the rank of a record is one more than the
    number of input records with a higher score (competition ranking). *)
Theorem X5_rank_counts_higher_scores (data : list RawRecord) :
  Forall (fun emp => rank emp = None) data ->
  Forall (fun r => ranked_rank r = 1 + count_above (ranked_score r) data)
         (generateRankedData data).
Proof.
  intros N. rewrite generateRankedData_walk.
  pose proof (js_sort_perm by_score_desc data) as P.
  assert (N' : Forall (fun e => rank e = None) (js_sort by_score_desc data))
    by exact (Permutation_Forall (Permutation_sym P) N).
  pose proof (rank_walk_competition _ (sorted_by_score data) N' 0 None 0 I) as F.
  eapply Forall_impl; [|exact F]. intros r Hr. cbn [tied_with] in Hr.
  rewrite Hr, (count_above_perm _ _ _ P). lia.
Qed.

Lemma X5_rank_counts_higher_scores_witness :
  Forall (fun r => ranked_rank r = 1 + count_above (ranked_score r) (map scored [70; 90; 90]))
         (generateRankedData (map scored [70; 90; 90])).
Proof. apply X5_rank_counts_higher_scores. repeat constructor. Defined.

End RankingOrder.

Section RankingTies.
Import Js Report.

(** Over a sorted list the walk gives a rank per score: the rank it was
    started with for the score it was started with. *)
Lemma rank_walk_rank_of_score (l : list RawRecord) :
  StronglySorted (fun a b => resolved_score a >= resolved_score b) l ->
  forall index ls lr,
    match ls with Some s => Forall (fun e => resolved_score e <= s) l | None => True end ->
    exists g : Z -> Z,
      Forall (fun r => ranked_rank r = g (ranked_score r)) (rank_walk l index ls lr) /\
      (forall s, ls = Some s -> g s = lr).
Proof.
  induction l as [|emp l IH]; intros S index ls lr B.
  - exists (fun _ => lr). split; [constructor|reflexivity].
  - rewrite rank_walk_cons. cbn zeta.
    pose proof (sorted_tail_below emp l S) as T.
    inversion S as [|? ? S' _]; subst.
    fold (tied_with ls (resolved_score emp)).
    set (r0 := if tied_with ls (resolved_score emp) then lr else fresh_rank emp index).
    destruct (IH S' (index + 1) (Some (resolved_score emp)) r0 T) as (g' & F & G).
    exists (fun s => if tied_with ls s then lr else g' s). split.
    + constructor.
      * cbn [ranked_rank ranked_score]. rewrite (G _ eq_refl). unfold r0.
        now destruct (tied_with ls (resolved_score emp)).
      * rewrite Forall_forall in *. intros r Hr. rewrite (F r Hr).
        destruct (tied_with ls (ranked_score r)) eqn:E; [|reflexivity].
        destruct ls as [s|]; [|discriminate E]. cbn [tied_with] in E.
        apply Z.eqb_eq in E.
        destruct (rank_walk_in _ _ _ _ _ Hr) as [Hin _]. specialize (T _ Hin).
        inversion B as [|? ? Bemp _]; subst.
        assert (Es : resolved_score emp = ranked_score r).
        { destruct (rank_walk_in _ _ _ _ _ Hr) as [_ Hs]. lia. }
        rewrite <- Es, (G _ eq_refl). unfold r0. cbn [tied_with].
        now rewrite Es, Z.eqb_refl.
    + intros s ->. cbn [tied_with]. now rewrite Z.eqb_refl.
Qed.

(** X6: whatever ranks the server sent, two output records with the same
    score have the same rank; the rank field of a record that ties with
    the one before it is not looked at. *)
Theorem X6_same_score_same_rank (data : list RawRecord) (r1 r2 : RankedRecord) :
  In r1 (generateRankedData data) -> In r2 (generateRankedData data) ->
  ranked_score r1 = ranked_score r2 -> ranked_rank r1 = ranked_rank r2.
Proof.
  rewrite generateRankedData_walk. intros H1 H2 E.
  destruct (rank_walk_rank_of_score _ (sorted_by_score data) 0 None 0 I) as (g & F & _).
  rewrite Forall_forall in F. now rewrite (F r1 H1), (F r2 H2), E.
Qed.

Lemma X6_same_score_same_rank_witness :
  ranked_rank (mkRanked (scored_ranked 90 7) 90 7) = ranked_rank (mkRanked (scored_ranked 90 3) 90 7).
Proof.
  apply (X6_same_score_same_rank [scored_ranked 90 7; scored 80; scored_ranked 90 3]).
  - left. reflexivity.
  - right. left. reflexivity.
  - reflexivity.
Defined.

End RankingTies.

(** ** The report requests and their answers *)

Section ReportFetch.
Import Js Report.

(** X7: a submit without a selected week only alerts; any other submit
    sends one request, to the endpoint of the report type, with the typed
    option as [manager] or [department] according to the type and only
    when it is not empty, and with the [week] and [year] the parser read,
    each left out when it is [null], [NaN] or [0]. *)
Theorem X7_submit_sends_truthy_parameters (st : State) :
  (selectedWeek2 st = "" -> handleSubmit st = Alerted "Please select week") /\
  (selectedWeek2 st <> "" ->
   exists req,
     handleSubmit st = Requested req /\
     endpoint req = API_BASE (reportType st) /\
     p_manager (params req) =
       match reportType st with by_manager => set_if_string (selectedOption st) | _ => None end /\
     p_department (params req) =
       match reportType st with by_department => set_if_string (selectedOption st) | _ => None end /\
     (includes "-W" (selectedWeek2 st) = false ->
        p_week (params req) = None /\ p_year (params req) = None) /\
     (forall pre post,
        selectedWeek2 st = pre ++ "-W" ++ post -> includes "-W" pre = false ->
        p_year (params req) =
          match parseInt pre with Num y => if y =? 0 then None else Some y | NaN => None end /\
        p_week (params req) =
          match parseInt post with Num w => if w =? 0 then None else Some w | NaN => None end)).
Proof.
  split.
  - intros E. unfold handleSubmit. now rewrite E.
  - intros Hne. unfold handleSubmit.
    destruct (String.eqb_spec (selectedWeek2 st) ""); [contradiction|].
    assert (P : forall t m d,
      let req := fetchReport_request t m d
                   (week (parseWeek (Some (selectedWeek2 st))))
                   (year (parseWeek (Some (selectedWeek2 st)))) in
      (includes "-W" (selectedWeek2 st) = false ->
         p_week (params req) = None /\ p_year (params req) = None) /\
      (forall pre post,
         selectedWeek2 st = pre ++ "-W" ++ post -> includes "-W" pre = false ->
         p_year (params req) =
           match parseInt pre with Num y => if y =? 0 then None else Some y | NaN => None end /\
         p_week (params req) =
           match parseInt post with Num w => if w =? 0 then None else Some w | NaN => None end)).
    { intros t m d req. subst req. cbn [fetchReport_request params p_week p_year]. split.
      - intros H. now rewrite (parseWeek_none _ H).
      - intros pre post E H. rewrite E, (parseWeek_marker _ _ H). cbn [week year set_if_number].
        split; reflexivity. }
    destruct (reportType st); eexists; (split; [reflexivity|]);
      (split; [reflexivity|]); (split; [reflexivity|]); (split; [reflexivity|]).
    + exact (P weekly "" "").
    + exact (P by_manager (selectedOption st) "").
    + exact (P by_department "" (selectedOption st)).
Qed.

Lemma X7_submit_sends_truthy_parameters_witness :
  exists req,
    handleSubmit (mkState by_manager "Rao" "2025-W00" [] false false "") = Requested req /\
    p_year (params req) = Some 2025 /\ p_week (params req) = None.
Proof.
  destruct (proj2 (X7_submit_sends_truthy_parameters
                     (mkState by_manager "Rao" "2025-W00" [] false false "")))
    as (req & E & _ & _ & _ & _ & H); [discriminate|].
  exists req. split; [exact E|]. exact (H "2025" "00" eq_refl eq_refl).
Defined.

Lemma sorted_map_inv {A B : Type} (R : B -> B -> Prop) (f : A -> B) (l : list A) :
  StronglySorted R (map f l) -> StronglySorted (fun a b => R (f a) (f b)) l.
Proof.
  induction l as [|x l IH]; intros H; [constructor|].
  simpl in H. inversion H as [|? ? Hs Hx]; subst. constructor; [now apply IH|].
  rewrite Forall_forall in *. intros y Hy. apply Hx. now apply in_map.
Qed.

Lemma sorted_map {A B : Type} (R : B -> B -> Prop) (f : A -> B) (l : list A) :
  StronglySorted (fun a b => R (f a) (f b)) l -> StronglySorted R (map f l).
Proof.
  induction 1 as [|x l Hs IH Hx]; [constructor|].
  simpl. constructor; [exact IH|].
  rewrite Forall_forall in *. intros y Hy. apply in_map_iff in Hy as (a & <- & Ha).
  now apply Hx.
Qed.

(** X8: the report request settles with the loading flag off.  Rejected,
    it leaves the rows as they were and sets the error text; answered
    without a records array, it empties the rows and clears the error;
    answered with records, it clears the error and shows one row per
    record, in descending order of score, with the ranks of the ranking. *)
Theorem X8_report_answer (res : AxiosResult) (st : State) :
  loading (fetchReport res st) = false /\
  match res with
  | Rejected =>
      filteredData (fetchReport res st) = filteredData st /\
      error (fetchReport res st) = "Failed to load data from server"
  | Resolved None =>
      filteredData (fetchReport res st) = [] /\ error (fetchReport res st) = ""
  | Resolved (Some records) =>
      error (fetchReport res st) = "" /\
      List.length (filteredData (fetchReport res st)) = List.length records /\
      StronglySorted (fun a b => a >= b) (map row_score (filteredData (fetchReport res st))) /\
      map row_rank (filteredData (fetchReport res st))
        = map ranked_rank (generateRankedData records)
  end.
Proof.
  split; [reflexivity|]. destruct res as [|[records|]]; [now split| |now split].
  cbn [fetchReport filteredData error]. split; [reflexivity|]. split; [|split].
  - rewrite length_map, <- (length_map ranked_emp (generateRankedData records)), ranked_emps.
    apply Permutation_length, js_sort_perm.
  - rewrite map_map. cbn [normalize row_score].
    apply sorted_map.
    apply (StronglySorted_weaken_in
             (fun a b => resolved_score (ranked_emp a) >= resolved_score (ranked_emp b))).
    + intros x y Hx Hy. rewrite generateRankedData_walk in Hx, Hy.
      destruct (rank_walk_in _ _ _ _ _ Hx) as [_ ->].
      destruct (rank_walk_in _ _ _ _ _ Hy) as [_ ->]. auto.
    + apply (sorted_map_inv (fun a b => resolved_score a >= resolved_score b) ranked_emp).
      rewrite ranked_emps. apply sorted_by_score.
  - now rewrite map_map.
Qed.

End ReportFetch.

(** ** The performance page: page links, refetch, search *)

Section PerformancePage.
Import Js Performance.

Lemma ceil_pages_bounds (c : Z) :
  exists n, ceil_pages (CountOf c) = Num n /\ 10 * (n - 1) < c <= 10 * n.
Proof.
  exists (- ((- c) / 10)). split; [reflexivity|].
  pose proof (Z.div_mod (- c) 10 ltac:(lia)).
  pose proof (Z.mod_pos_bound (- c) 10 ltac:(lia)). lia.
Qed.

Lemma in_page_range (p : Z) (m : nat) :
  In p (map (fun num => Z.of_nat num + 1) (seq 0 m)) <-> 1 <= p <= Z.of_nat m.
Proof.
  rewrite in_map_iff. split.
  - intros (k & <- & Hk). apply in_seq in Hk. lia.
  - intros H. exists (Z.to_nat (p - 1)). split; [lia|]. apply in_seq. lia.
Qed.

(** X9: after an answered summary request with count [c], an integer up
    to [Number.MAX_SAFE_INTEGER] in magnitude, the number of pages [n] is
    the least with [10 * n >= c]; for a count from 0 up to the array limit
    the page links are exactly 1 to [n], and for a count of -10 or less
    building them throws.  With a [null] count there are 0 pages and no
    link; with no count at all the number of pages is [NaN] and building
    the page links throws. *)
Theorem X9_page_links_of_count (backend : Backend) (st : State) :
  let st' := fetchPerformanceData (Resolved backend) st in
  (forall c, count backend = CountOf c ->
     - MAX_SAFE_INTEGER <= c <= MAX_SAFE_INTEGER ->
     exists n, totalPages st' = Num n /\ 10 * (n - 1) < c <= 10 * n /\
       (0 <= c <= 10 * (2 ^ 32 - 1) ->
          exists links, page_numbers st' = Ok links /\
            List.length links = Z.to_nat n /\ (forall p, In p links <-> 1 <= p <= n)) /\
       (c <= -10 -> page_numbers st' = Throw)) /\
  (count backend = NullCount -> totalPages st' = Num 0 /\ page_numbers st' = Ok []) /\
  (count backend = NoCount -> totalPages st' = NaN /\ page_numbers st' = Throw).
Proof.
  intros st'. subst st'. split; [|split].
  - intros c E _. destruct (ceil_pages_bounds c) as (n & En & B).
    exists n. unfold page_numbers, fetchPerformanceData.
    cbn [setLoading setTotalPages setEmployees totalPages]. rewrite E, En.
    split; [reflexivity|]. split; [exact B|]. split.
    + intros Hc.
      destruct (Z.leb_spec 0 n); [|lia]. destruct (Z.ltb_spec n (2 ^ 32)); [|lia].
      cbn [andb]. eexists. split; [reflexivity|]. split.
      * now rewrite length_map, length_seq.
      * intros p. rewrite in_page_range. lia.
    + intros Hc. destruct (Z.leb_spec 0 n); [lia|reflexivity].
  - intros E. unfold page_numbers, fetchPerformanceData.
    cbn [setLoading setTotalPages setEmployees totalPages]. rewrite E. now split.
  - intros E. unfold page_numbers, fetchPerformanceData.
    cbn [setLoading setTotalPages setEmployees totalPages]. rewrite E. now split.
Qed.

Lemma X9_page_links_of_count_witness :
  exists n, totalPages (fetchPerformanceData (Resolved (mkBackend None None (CountOf 25))) initial)
            = Num n /\ 10 * (n - 1) < 25 <= 10 * n.
Proof.
  destruct (proj1 (X9_page_links_of_count (mkBackend None None (CountOf 25)) initial) 25 eq_refl)
    as (n & E & B & _); [unfold MAX_SAFE_INTEGER; lia|].
  now exists n.
Defined.

(** X10: a fetch of the summary, whatever its outcome, leaves the sort
    state, the search text, the page and the selected week as they are
    and ends with the loading flag off; so the first click on the header
    the page was sorted by in ascending order, after a new page has been
    loaded, sets the direction to descending and, when every record of the
    new page has a value for the column and the values are all strings or
    all numbers, leaves the new page in descending order. *)
Theorem X10_refetch_keeps_sort_state :
  (forall res st,
     sortConfig (fetchPerformanceData res st) = sortConfig st /\
     searchQuery (fetchPerformanceData res st) = searchQuery st /\
     page (fetchPerformanceData res st) = page st /\
     week (fetchPerformanceData res st) = week st /\
     loading (fetchPerformanceData res st) = false) /\
  (forall k backend st,
     sortConfig st = mkSortConfig (Some k) asc ->
     let st2 := handleSort k (fetchPerformanceData (Resolved backend) st) in
     sortConfig st2 = mkSortConfig (Some k) desc /\
     (comparable k (employees (fetchPerformanceData (Resolved backend) st)) ->
      descending k (employees st2))).
Proof.
  split.
  - intros [|backend] st; repeat split.
  - intros k backend st E st2. subst st2.
    assert (C : sortConfig (handleSort k (fetchPerformanceData (Resolved backend) st))
                = mkSortConfig (Some k) desc).
    { rewrite handleSort_config, next_direction_same; cbn [sortConfig fetchPerformanceData
        setLoading setTotalPages setEmployees]; now rewrite E. }
    split; [exact C|]. intros Hc.
    apply (proj2 (proj2 (handleSort_sorted k _ Hc))). now rewrite C.
Qed.

Lemma X10_refetch_keeps_sort_state_witness :
  sortConfig (handleSort K_total_score
                (fetchPerformanceData (Resolved (mkBackend None (Some [row_E3; row_E1]) (CountOf 2)))
                   (handleSort K_total_score server_page)))
  = mkSortConfig (Some K_total_score) desc.
Proof.
  apply (proj2 X10_refetch_keeps_sort_state K_total_score
           (mkBackend None (Some [row_E3; row_E1]) (CountOf 2))
           (handleSort K_total_score server_page)).
  reflexivity.
Defined.

Lemma filter_r_throws {A : Type} (p : A -> result bool) (l : list A) :
  filter_r p l = Throw <-> Exists (fun x => p x = Throw) l.
Proof.
  induction l as [|x l IH]; simpl.
  - split; [discriminate|intros H; inversion H].
  - destruct (p x) as [b|] eqn:E; simpl.
    + destruct (filter_r p l) as [r|] eqn:F; simpl.
      * split; [discriminate|]. intros H. inversion H as [? ? Hx|? ? Hl]; subst.
        -- congruence.
        -- apply IH in Hl. discriminate Hl.
      * split; [|reflexivity]. intros _. right. now apply IH.
    + split; [|reflexivity]. intros _. now left.
Qed.

Lemma search_pred_throws (q : string) (emp : PerfRecord) :
  search_pred q emp = Throw <-> emp_id emp = None.
Proof.
  unfold search_pred. destruct (emp_id emp) as [i|]; cbn [matches or_else bind].
  - split; [|discriminate].
    destruct (includes (toLowerCase q) (toLowerCase i)); [discriminate|].
    destruct (full_name emp), (department_name emp); cbn [matches_opt or_else bind];
      repeat match goal with |- context [if ?b then _ else _] => destruct b end; discriminate.
  - split; reflexivity.
Qed.

(** X11: the search of the performance page throws exactly when a record
    of the loaded page has no employee id, whatever the query and wherever
    the record stands. *)
Theorem X11_search_throws_without_employee_id (st : State) :
  filteredEmployees st = Throw <-> Exists (fun emp => emp_id emp = None) (employees st).
Proof.
  unfold filteredEmployees. rewrite filter_r_throws.
  split; intros H; eapply Exists_impl; try exact H; intros emp; apply search_pred_throws.
Qed.

Lemma X11_search_throws_without_employee_id_witness :
  filteredEmployees nameless_state = Throw.
Proof.
  apply (proj2 (X11_search_throws_without_employee_id nameless_state)).
  left. reflexivity.
Defined.

Lemma includes_empty (s : string) : includes "" s = true.
Proof. destruct s; reflexivity. Qed.

Lemma field_matches_empty (x : option string) :
  field_matches "" x = match x with Some _ => true | None => false end.
Proof. destruct x; [apply includes_empty|reflexivity]. Qed.

(** X12: with an empty search text the performance page shows every
    loaded record, provided each has an employee id, and the credentials
    page shows the records that have a full name, an employee id or a
    username; whatever the search text, the credentials page never shows a
    record with none of the three. *)
Theorem X12_empty_search :
  (forall st, searchQuery st = "" ->
     Forall (fun emp => emp_id emp <> None) (employees st) ->
     filteredEmployees st = Ok (employees st)) /\
  (forall st, Login.search st = "" ->
     Login.filteredData st =
     Ok (filter (fun emp =>
                   match Login.full_name emp, Login.emp_id emp, Login.username emp with
                   | None, None, None => false
                   | _, _, _ => true
                   end) (Login.employees st))) /\
  (forall st shown, Login.filteredData st = Ok shown ->
     Forall (fun emp => ~ (Login.full_name emp = None /\ Login.emp_id emp = None /\
                           Login.username emp = None)) shown).
Proof.
  split; [|split].
  - intros st Eq H. unfold filteredEmployees. rewrite Eq.
    rewrite (filter_r_total _ (fun _ => true)).
    + f_equal. induction (employees st) as [|x l IH]; [reflexivity|]. simpl. f_equal.
      apply IH. now inversion H.
    + intros emp Hin. rewrite Forall_forall in H. specialize (H emp Hin).
      unfold search_pred. destruct (emp_id emp) as [i|]; [|congruence].
      cbn [matches]. change (toLowerCase "") with "". now rewrite includes_empty.
  - intros st Eq. unfold Login.filteredData. rewrite Eq. apply filter_r_total.
    intros emp _. unfold Login.search_pred.
    rewrite !matches_opt_field, !or_else_ok, !field_matches_empty.
    now destruct (Login.full_name emp), (Login.emp_id emp), (Login.username emp).
  - intros st shown. unfold Login.filteredData.
    rewrite (filter_r_total _ (fun emp =>
               field_matches (Login.search st) (Login.full_name emp)
               || field_matches (Login.search st) (Login.emp_id emp)
               || field_matches (Login.search st) (Login.username emp))).
    + intros E. injection E as <-. apply Forall_forall. intros emp Hin.
      apply filter_In in Hin as [_ Hm]. intros (E1 & E2 & E3).
      rewrite E1, E2, E3 in Hm. discriminate Hm.
    + intros emp _. unfold Login.search_pred.
      now rewrite !matches_opt_field, !or_else_ok, orb_assoc.
Qed.

Lemma X12_empty_search_witness :
  filteredEmployees loaded_state = Ok (employees loaded_state).
Proof.
  apply (proj1 X12_empty_search loaded_state); [reflexivity|].
  repeat constructor. discriminate.
Defined.

End PerformancePage.

(** ** The credentials page *)

Section CredentialsPage.
Import Js Login.

Lemma getPage_skip (c : ascii) (s : string) :
  String.prefix "page=" (String c s) = false ->
  getPageNumberFromUrl (String c s) = getPageNumberFromUrl s.
Proof. intros H. cbn [getPageNumberFromUrl]. now rewrite H. Qed.

Lemma substring_all (s : string) (m : nat) :
  (String.length s <= m)%nat -> String.substring 0 m s = s.
Proof.
  revert m. induction s as [|c s IH]; intros m H.
  - now destruct m.
  - destruct m as [|m]; simpl in *; [lia|]. rewrite IH by lia. reflexivity.
Qed.

Lemma getPage_here (d : string) (n : Z) :
  parse_digits 10 d None = Some n ->
  getPageNumberFromUrl ("page=" ++ d) = n.
Proof.
  intros H. change ("page=" ++ d) with (String "p" ("age=" ++ d)).
  cbn [getPageNumberFromUrl].
  change (String "p" ("age=" ++ d)) with ("page=" ++ d).
  rewrite prefix_app.
  change (String.substring 5 (String.length ("page=" ++ d)) ("page=" ++ d))
    with (String.substring 0 (5 + String.length d) d).
  rewrite substring_all by lia. now rewrite H.
Qed.

Lemma page_click_number (n : Z) :
  0 <= n -> getPageNumberFromUrl (handlePageClick_url n) = n.
Proof.
  intros Hn. unfold handlePageClick_url, API_URL.
  cbn [append].
  repeat (rewrite getPage_skip by (vm_compute; reflexivity)).
  change (String "p" (String "a" (String "g" (String "e" (String "=" (string_of_Z n))))))
    with ("page=" ++ string_of_Z n).
  apply getPage_here.
  rewrite <- (append_nil_r (string_of_Z n)).
  now rewrite (proj1 (parse_string_of_Z n "" Hn)).
Qed.

(** X13: for a page [n] from 0 to [Number.MAX_SAFE_INTEGER], a click on
    the link of page [n] fetches a URL whose page number reads back as
    [n], so that after the answer the current page is [n] when [n] is at
    least 1, and 1 when [n] is 0; the URL of the list itself, which has no
    page parameter, counts as page 1. *)
Theorem X13_page_link_round_trip :
  (forall n, 0 <= n <= MAX_SAFE_INTEGER ->
     getPageNumberFromUrl (handlePageClick_url n) = n) /\
  getPageNumberFromUrl API_URL = 1 /\
  (forall n data st, 0 <= n <= MAX_SAFE_INTEGER ->
     currentPage (pagination (fetchEmployees (handlePageClick_url n)
                                (Response true (Some data)) st))
     = if n =? 0 then 1 else n).
Proof.
  split; [intros n [Hn _]; now apply page_click_number|]. split; [reflexivity|].
  intros n data st [Hn _]. cbn [fetchEmployees setLoading storeUrl setPagination setEmployees
    pagination currentPage]. now rewrite page_click_number.
Qed.

Lemma X13_page_link_round_trip_witness :
  getPageNumberFromUrl (handlePageClick_url 12) = 12.
Proof. apply (proj1 X13_page_link_round_trip). unfold MAX_SAFE_INTEGER. lia. Defined.

(** X14: an answered list request replaces the rows by the rows sent, each
    with [temp_password], or the empty string, as its password and its
    other fields as sent; it saves the URL, which the next mount fetches
    again, and it leaves an alert that is showing in place.  A failed
    request changes neither the saved URL nor the paging state. *)
Theorem X14_list_answer (url : string) (st : State) :
  (forall data,
     let st' := fetchEmployees url (Response true (Some data)) st in
     let sent := match results data with Some l => l | None => [] end in
     List.length (employees st') = List.length sent /\
     (forall i emp, nth_error sent i = Some emp ->
        exists row, nth_error (employees st') i = Some row /\
          password row = Some (match temp_password emp with
                               | Some t => t
                               | None => ""
                               end) /\
          emp_id row = emp_id emp /\ full_name row = full_name emp /\
          username row = username emp /\ temp_password row = temp_password emp) /\
     loginDetailsPageUrl st' = Some url /\
     (url <> "" -> mount_url st' = url) /\
     alert st' = alert st /\ loading st' = false) /\
  (forall res, fetch_failed res = true ->
     loginDetailsPageUrl (fetchEmployees url res st) = loginDetailsPageUrl st /\
     pagination (fetchEmployees url res st) = pagination st /\
     mount_url (fetchEmployees url res st) = mount_url st).
Proof.
  split.
  - intros data st' sent. subst st' sent.
    cbn [fetchEmployees setLoading storeUrl setPagination setEmployees employees
      loginDetailsPageUrl alert loading mount_url].
    split; [apply length_map|]. split; [|split; [reflexivity|split; [|now split]]].
    + intros i emp H. rewrite nth_error_map, H. cbn [option_map].
      eexists. split; [reflexivity|]. cbn [with_password password emp_id full_name username
        temp_password]. split; [|repeat split].
      f_equal. unfold str_or. destruct (temp_password emp) as [t|]; [|reflexivity].
      destruct (String.eqb_spec t ""); congruence.
    + intros H. destruct (String.eqb_spec url ""); [contradiction|reflexivity].
  - intros res H. destruct res as [|[|] [data|]]; try discriminate H; now repeat split.
Qed.

Lemma X14_list_answer_witness :
  mount_url (fetchEmployees (handlePageClick_url 3)
               (Response true (Some (mkListData None None None None (Some 50)))) initial)
  = handlePageClick_url 3.
Proof.
  apply (proj1 (X14_list_answer (handlePageClick_url 3) initial)
           (mkListData None None None None (Some 50))).
  discriminate.
Defined.

(** X15: a password regeneration ends with no row loading, whatever the
    outcome; when it fails, the rows, the paging state and the saved URL
    are as before and a danger alert names the employee. *)
Theorem X15_regeneration_failure (empId : option string) (st : State) :
  (forall res, regenLoading (regeneratePassword empId res st) = None) /\
  (forall res, fetch_failed res = true ->
     let st' := regeneratePassword empId res st in
     employees st' = employees st /\
     pagination st' = pagination st /\
     loginDetailsPageUrl st' = loginDetailsPageUrl st /\
     alert st' = mkAlert true ("Failed to regenerate password for " ++ show_id empId ++ ".")
                         "danger").
Proof.
  split.
  - intros [|[|] [data|]]; reflexivity.
  - intros res H. destruct res as [|[|] [data|]]; try discriminate H; now repeat split.
Qed.

Lemma X15_regeneration_failure_witness :
  employees (regeneratePassword (Some "E2") NetworkError two_rows) = employees two_rows.
Proof.
  apply (proj2 (X15_regeneration_failure (Some "E2") two_rows) NetworkError). reflexivity.
Defined.




Lemma sorted_without_order {A : Type} (cmp : A -> A -> Z) (l : list A) :
  (forall x y, cmp x y = 0) -> js_sort cmp l = l.
Proof.
  intros H. apply js_sort_sorted_id.
  induction l as [|x l IH]; constructor; [exact IH|].
  apply Forall_forall. intros y _. unfold before_eq, after. now rewrite H.
Qed.

Lemma filteredData_ok (st : State) : exists l, filteredData st = Ok l.
Proof.
  eexists. unfold filteredData. apply (filter_r_total _ (fun emp =>
    field_matches (search st) (full_name emp) || field_matches (search st) (emp_id emp)
    || field_matches (search st) (username emp))).
  intros emp _. unfold search_pred. now rewrite !matches_opt_field, !or_else_ok, orb_assoc.
Qed.

(** X17: the sorted rows of the credentials page are the filtered rows in
    another order, never an error; before any header is clicked, and for
    a sort key that is no property of the rows, they are the filtered rows
    in their own order.  A click on a header changes the sort state only:
    the loaded rows stay in server order. *)
Theorem X17_sorted_rows (st : State) :
  (exists shown sorted,
     filteredData st = Ok shown /\ sortedData st = Ok sorted /\ Permutation sorted shown) /\
  (key (sortConfig st) = None -> sortedData st = filteredData st) /\
  (forall k, key (sortConfig st) = Some k ->
     (forall emp, field k emp = None) -> sortedData st = filteredData st) /\
  (forall k, employees (handleSort k st) = employees st /\
             key (sortConfig (handleSort k st)) = Some k /\
             filteredData (handleSort k st) = filteredData st).
Proof.
  destruct (filteredData_ok st) as [shown E].
  split; [|split; [|split]].
  - exists shown, (js_sort (compare_rows (sortConfig st)) shown).
    split; [exact E|]. split; [unfold sortedData; now rewrite E|apply js_sort_perm].
  - intros K. unfold sortedData. rewrite E. cbn [bind]. f_equal.
    apply sorted_without_order. intros x y. unfold compare_rows. now rewrite K.
  - intros k K U. unfold sortedData. rewrite E. cbn [bind]. f_equal.
    apply sorted_without_order. intros x y. unfold compare_rows, field_lt.
    rewrite K, !U. now destruct (k =? "")%string.
  - intros k. repeat split.
Qed.

Lemma X17_sorted_rows_witness :
  sortedData (setSortConfig (mkSortConfig (Some "salary") desc) two_rows)
  = filteredData (setSortConfig (mkSortConfig (Some "salary") desc) two_rows).
Proof.
  apply (proj1 (proj2 (proj2 (X17_sorted_rows
           (setSortConfig (mkSortConfig (Some "salary") desc) two_rows)))) "salary").
  - reflexivity.
  - intros emp. reflexivity.
Defined.

End CredentialsPage.
